(** * MediReach: appointment lifecycle, rating aggregation and access rules

    A shallow embedding of the two backends of the repository:

    - the document-store backend: the Mongoose models
      [models/DoctorProfile.js] and [models/Appointment.js] and the Express
      routes [routes/auth.js] and [routes/appointments.js];
    - the relational backend: the tables, the row-level-security policies
      and the [update_doctor_rating] trigger of the migration.

    Collections and tables are finite maps from the primary key ([_id],
    [id]) to the stored document or row, so a key identifies at most one
    record.  A JavaScript number is the rational that the double stands
    for, and its arithmetic rounds to the nearest double; an SQL numeric is
    an exact rational ([Q]), an SQL integer an integer ([Z]).  A string is
    the [string] of the UTF-8 bytes of the text. *)

From stdpp Require Import gmap strings list sorting.
From Stdlib Require Import Ascii QArith Qabs Qround Lqa.
Close Scope Q_scope.
Local Open Scope string_scope.

(** ** Identifiers and exceptions *)

(** A well-formed [ObjectId]. *)
Definition ObjectId := nat.

(** The outcome of an awaited call: a value, or a thrown exception with its
    message. *)
Inductive Result (A : Type) : Type :=
| Ok (a : A)
| Throw (msg : string).
Arguments Ok {A} a.
Arguments Throw {A} msg.

(** ** Schemas of the document store *)

(** [models/User.js] is referenced by the routes through [User.findOne],
    [User.create] and [req.user]; the fields are the ones the register
    route writes. *)
Module User.
Record doc := mk {
  email : string;
  passwordHash : string;
  fullName : string;
  role : string
}.
End User.

(** [doctorProfileSchema]. *)
Module DoctorProfile.
Record doc := mk {
  userId : ObjectId;
  specialization : string;
  licenseNumber : string;
  qualification : string;
  experienceYears : Z;
  consultationFee : Q;
  bio : option string;
  isVerified : bool;
  isAvailable : bool;
  rating : Q;
  totalConsultations : Z
}.

Definition set_rating (r : Q) (d : doc) : doc :=
  mk (userId d) (specialization d) (licenseNumber d) (qualification d)
     (experienceYears d) (consultationFee d) (bio d) (isVerified d)
     (isAvailable d) r (totalConsultations d).

(** [{ $inc: { totalConsultations: n } }] *)
Definition inc_totalConsultations (n : Z) (d : doc) : doc :=
  mk (userId d) (specialization d) (licenseNumber d) (qualification d)
     (experienceYears d) (consultationFee d) (bio d) (isVerified d)
     (isAvailable d) (rating d) (totalConsultations d + n)%Z.
End DoctorProfile.

(** [appointmentSchema]; [appointmentDate] is the date as milliseconds
    since the epoch. *)
Module Appointment.
Record doc := mk {
  patientId : ObjectId;
  doctorId : ObjectId;
  appointmentDate : Z;
  appointmentTime : string;
  status : string;
  reason : string;
  notes : option string;
  videoRoomId : option string
}.

Definition set_status (s : string) (d : doc) : doc :=
  mk (patientId d) (doctorId d) (appointmentDate d) (appointmentTime d)
     s (reason d) (notes d) (videoRoomId d).

(** [enum] of the [status] path. *)
Definition status_enum : list string :=
  ["pending"; "confirmed"; "completed"; "cancelled"; "rescheduled"].
End Appointment.

(** The fields the routes pass to [Notification.create]; [isRead] starts
    out [false]. *)
Module Notification.
Record doc := mk {
  userId : ObjectId;
  title : string;
  message : string;
  type : string;
  isRead : bool;
  relatedId : option ObjectId
}.
End Notification.

(** The fields of a review that [updateRating] reads. *)
Module Review.
Record doc := mk {
  appointmentId : ObjectId;
  patientId : ObjectId;
  doctorId : ObjectId;
  rating : Q;
  comment : option string
}.
End Review.

(** ** The database *)

Record Store := mkStore {
  users : gmap ObjectId User.doc;
  doctorProfiles : gmap ObjectId DoctorProfile.doc;
  appointments : gmap ObjectId Appointment.doc;
  notifications : gmap ObjectId Notification.doc;
  reviews : gmap ObjectId Review.doc
}.

Definition emptyStore : Store := mkStore ∅ ∅ ∅ ∅ ∅.

Definition with_users (f : gmap ObjectId User.doc → gmap ObjectId User.doc)
    (st : Store) : Store :=
  mkStore (f (users st)) (doctorProfiles st) (appointments st)
          (notifications st) (reviews st).

Definition with_doctorProfiles
    (f : gmap ObjectId DoctorProfile.doc → gmap ObjectId DoctorProfile.doc)
    (st : Store) : Store :=
  mkStore (users st) (f (doctorProfiles st)) (appointments st)
          (notifications st) (reviews st).

Definition with_appointments
    (f : gmap ObjectId Appointment.doc → gmap ObjectId Appointment.doc)
    (st : Store) : Store :=
  mkStore (users st) (doctorProfiles st) (f (appointments st))
          (notifications st) (reviews st).

Definition with_notifications
    (f : gmap ObjectId Notification.doc → gmap ObjectId Notification.doc)
    (st : Store) : Store :=
  mkStore (users st) (doctorProfiles st) (appointments st)
          (f (notifications st)) (reviews st).

(** ** Awaited calls: a state monad over the store with exceptions.

    A thrown exception stops the handler but keeps the writes made before
    it: the document store has no transaction around a request. *)
Definition M (A : Type) : Type := Store → Result A * Store.

Definition ret {A} (a : A) : M A := λ st, (Ok a, st).

Definition throw {A} (msg : string) : M A := λ st, (Throw msg, st).

Definition bind {A B} (c : M A) (k : A → M B) : M B :=
  λ st, match c st with
        | (Ok a, st') => k a st'
        | (Throw msg, st') => (Throw msg, st')
        end.

Definition get_store : M Store := λ st, (Ok st, st).

Definition modify_store (f : Store → Store) : M unit := λ st, (Ok tt, f st).

Notation "'let!' x ':=' c 'in' k" := (bind c (λ x, k))
  (at level 10, x binder, c at level 100, k at level 200).
Notation "c ';;;' k" := (bind c (λ _, k))
  (at level 100, k at level 200, right associativity).

(** ** Mongoose queries *)

(** [Model.find(filter)]: the matching documents with their [_id]. *)
Definition find {A} (filter : ObjectId → A → bool) (coll : gmap ObjectId A)
    : list (ObjectId * A) :=
  List.filter (λ d, filter d.1 d.2) (map_to_list coll).

(** [Model.findOne(filter)]: the first matching document, or [null]. *)
Definition findOne {A} (filter : ObjectId → A → bool) (coll : gmap ObjectId A)
    : option (ObjectId * A) :=
  head (find filter coll).

(** [Model.findById(id)]. *)
Definition findById {A} (id : ObjectId) (coll : gmap ObjectId A) : option A :=
  coll !! id.

(** The [_id] of a new document and the collection with the document in it. *)
Definition insertNew {A} (d : A) (coll : gmap ObjectId A)
    : ObjectId * gmap ObjectId A :=
  let id := fresh (dom coll) in (id, <[id := d]> coll).

(** ** JavaScript strings and numbers

    A string is given by the UTF-8 bytes of its text, a finite number by the
    rational it stands for. *)

(** The white space and line terminators of one byte: U+0009 to U+000D and
    U+0020. *)
Definition is_space (c : ascii) : bool :=
  let n := nat_of_ascii c in ((n =? 32) || ((9 <=? n) && (n <=? 13)))%nat.

(** Of two bytes: U+00A0. *)
Definition is_space2 (c1 c2 : ascii) : bool :=
  ((nat_of_ascii c1 =? 194) && (nat_of_ascii c2 =? 160))%nat.

(** Of three bytes: U+1680, U+2000 to U+200A, U+2028, U+2029, U+202F, U+205F,
    U+3000 and U+FEFF. *)
Definition is_space3 (c1 c2 c3 : ascii) : bool :=
  let a := nat_of_ascii c1 in
  let b := nat_of_ascii c2 in
  let c := nat_of_ascii c3 in
  (((a =? 225) && (b =? 154) && (c =? 128))
   || ((a =? 226) && (b =? 128)
       && (((128 <=? c) && (c <=? 138)) || (c =? 168) || (c =? 169) || (c =? 175)))
   || ((a =? 226) && (b =? 129) && (c =? 159))
   || ((a =? 227) && (b =? 128) && (c =? 128))
   || ((a =? 239) && (b =? 187) && (c =? 191)))%nat.

(** [s.trimStart()] *)
Fixpoint trimStart (s : string) : string :=
  match s with
  | String c1 s1 =>
      if is_space c1 then trimStart s1
      else
        match s1 with
        | String c2 s2 =>
            if is_space2 c1 c2 then trimStart s2
            else
              match s2 with
              | String c3 s3 => if is_space3 c1 c2 c3 then trimStart s3 else s
              | EmptyString => s
              end
        | EmptyString => s
        end
  | EmptyString => EmptyString
  end.

(** [s.trimEnd()]: the string is cut where what remains is white space
    only. *)
Fixpoint trimEnd (s : string) : string :=
  match s with
  | String c s' =>
      if String.eqb (trimStart s) "" then EmptyString else String c (trimEnd s')
  | EmptyString => EmptyString
  end.

(** [s.trim()], the setter of [trim: true]. *)
Definition trim (s : string) : string := trimEnd (trimStart s).

(** [s.length]: the UTF-16 code units of the text, one per character of up
    to three bytes and two per character of four. *)
Fixpoint js_length (s : string) : nat :=
  match s with
  | String c s' =>
      let n := nat_of_ascii c in
      ((if (128 <=? n) && (n <? 192) then 0 else if 240 <=? n then 2 else 1)
       + js_length s')%nat
  | EmptyString => 0%nat
  end.

(** The nearest integer, ties to the even one. *)
Definition round_half_even (q : Q) : Z :=
  let f := Qfloor q in
  match (q - inject_Z f ?= 1 # 2)%Q with
  | Lt => f
  | Gt => (f + 1)%Z
  | Eq => if Z.even f then f else (f + 1)%Z
  end.

(** The integer [e] with [2 ^ e <= q < 2 ^ (e + 1)], for a positive [q]. *)
Definition Qlog2 (q : Q) : Z :=
  let k := (Z.log2 (Qnum q) - Z.log2 (Z.pos (Qden q)))%Z in
  if Qle_bool (Qpower 2 k) q then k else (k - 1)%Z.

(** The double nearest to [q], ties to the even significand: the result of
    an arithmetic operation whose exact value is [q].  [None] is an
    overflow to [Infinity] or [-Infinity]. *)
Definition binary64 (q : Q) : option Q :=
  if Qeq_bool q 0 then Some 0%Q
  else
    let a := Qabs q in
    let e := Z.max (Qlog2 a) (-1022) in
    let ulp := Qpower 2 (e - 52) in
    let r := (inject_Z (round_half_even (a / ulp)) * ulp)%Q in
    if Qle_bool (Qpower 2 1024) r then None
    else Some (Qred (if Qle_bool 0 q then r else - r)%Q).

(** A value that [new Date(ms)] holds: at most 8.64e15 milliseconds from the
    epoch. *)
Definition is_Date (ms : Z) : bool :=
  ((-8640000000000000 <=? ms) && (ms <=? 8640000000000000))%Z.

(** ** Schema setters and validators *)

Definition digit_in (lo hi : nat) (c : ascii) : bool :=
  let n := nat_of_ascii c in ((48 + lo <=? n) && (n <=? 48 + hi))%nat.

(** [/^([0-1]?[0-9]|2[0-3]):[0-5][0-9]$/.test(s)] *)
Definition matches_HHmm (s : string) : bool :=
  match s with
  | String h (String sep (String m1 (String m2 EmptyString))) =>
      digit_in 0 9 h && Ascii.eqb sep ":" && digit_in 0 5 m1 && digit_in 0 9 m2
  | String h1 (String h2 (String sep (String m1 (String m2 EmptyString)))) =>
      ((digit_in 0 1 h1 && digit_in 0 9 h2)
       || (Ascii.eqb h1 "2" && digit_in 0 3 h2))
      && Ascii.eqb sep ":" && digit_in 0 5 m1 && digit_in 0 9 m2
  | _ => false
  end.

(** The validators of [appointmentSchema] on a document: the date is a
    date, [required] and [match] on the time, [enum] on the status,
    [required] on the reason.  The two references are there by the type of
    the document. *)
Definition Appointment_validate (d : Appointment.doc) : bool :=
  is_Date (Appointment.appointmentDate d)
  && negb (String.eqb (Appointment.appointmentTime d) "")
  && matches_HHmm (Appointment.appointmentTime d)
  && bool_decide (Appointment.status d ∈ Appointment.status_enum)
  && negb (String.eqb (Appointment.reason d) "").

(** The validators of [doctorProfileSchema] on a document: [required] on
    the three strings, [min] on the years, the fee and the consultations,
    [maxlength] on the bio, [min] and [max] on the rating. *)
Definition DoctorProfile_validate (d : DoctorProfile.doc) : bool :=
  negb (String.eqb (DoctorProfile.specialization d) "")
  && negb (String.eqb (DoctorProfile.licenseNumber d) "")
  && negb (String.eqb (DoctorProfile.qualification d) "")
  && (0 <=? DoctorProfile.experienceYears d)%Z
  && Qle_bool 0 (DoctorProfile.consultationFee d)
  && match DoctorProfile.bio d with
     | Some bio => (js_length bio <=? 1000)%nat
     | None => true
     end
  && Qle_bool 0 (DoctorProfile.rating d)
  && Qle_bool (DoctorProfile.rating d) 5
  && (0 <=? DoctorProfile.totalConsultations d)%Z.

(** The body of [POST /api/appointments]: a field is [None] when it is absent
    or cannot be cast to the type of its path. *)
Record AppointmentInput := mkAppointmentInput {
  in_doctorId : option ObjectId;
  in_appointmentDate : option Z;
  in_appointmentTime : option string;
  in_reason : option string
}.

(** Casting and setters ([trim] on [reason]), then the validators of
    [appointmentSchema], on the object the route passes to
    [Appointment.create]; [None] when a cast or a validator fails. *)
Definition Appointment_cast (patientId : ObjectId) (i : AppointmentInput)
    (status : string) : option Appointment.doc :=
  match in_doctorId i, in_appointmentDate i, in_appointmentTime i, in_reason i with
  | Some doctorId, Some date, Some time, Some reason =>
      let d := Appointment.mk patientId doctorId date time status
                              (trim reason) None None in
      if Appointment_validate d then Some d else None
  | _, _, _, _ => None
  end.

(** [Appointment.create(obj)]; the message of the validation error is cut
    after its first words. *)
Definition Appointment_create (patientId : ObjectId) (i : AppointmentInput)
    (status : string) : M (ObjectId * Appointment.doc) :=
  match Appointment_cast patientId i status with
  | Some d =>
      let! st := get_store in
      let new := insertNew d (appointments st) in
      modify_store (with_appointments (λ _, new.2)) ;;;
      ret (new.1, d)
  | None => throw "Appointment validation failed"
  end.

(** [appointment.save()] on a document that a query returned: the
    validators of the schema on every path of the document, then the update
    of the stored document with that [_id]; no such document is a
    [DocumentNotFoundError].  [this.2] is the document in memory: the loaded
    one with the assignments made since, so that writing it is writing the
    assigned paths. *)
Definition Appointment_save (this : ObjectId * Appointment.doc) : M unit :=
  if Appointment_validate this.2
  then
    let! st := get_store in
    match appointments st !! this.1 with
    | Some _ => modify_store (with_appointments (<[this.1 := this.2]>))
    | None => throw "No document found for query"
    end
  else throw "Appointment validation failed".

(** [doctorProfile.save()], likewise. *)
Definition DoctorProfile_save (this : ObjectId * DoctorProfile.doc) : M unit :=
  if DoctorProfile_validate this.2
  then
    let! st := get_store in
    match doctorProfiles st !! this.1 with
    | Some _ => modify_store (with_doctorProfiles (<[this.1 := this.2]>))
    | None => throw "No document found for query"
    end
  else throw "DoctorProfile validation failed".

(** [DoctorProfile.findByIdAndUpdate(id, { $inc: { totalConsultations: n } })]:
    no document with that [_id], no write. *)
Definition DoctorProfile_findByIdAndUpdate_inc (id : ObjectId) (n : Z) : M unit :=
  modify_store (with_doctorProfiles
                  (alter (DoctorProfile.inc_totalConsultations n) id)).

(** Modelled from the spec: [models/Notification.js] is not among the
    sources; [Notification.create] is the pure create of the notification
    emitter. *)
Definition Notification_create (n : Notification.doc) : M ObjectId :=
  let! st := get_store in
  let new := insertNew n (notifications st) in
  modify_store (with_notifications (λ _, new.2)) ;;;
  ret new.1.

(** ** Model methods *)

(** [appointmentSchema.methods.canBeModified] *)
Definition canBeModified (this : Appointment.doc) : bool :=
  bool_decide (Appointment.status this ∈ ["pending"; "confirmed"]).

(** [appointmentSchema.methods.complete]; the method returns nothing, the
    value here is [this] after the assignment. *)
Definition complete (this : ObjectId * Appointment.doc) : M Appointment.doc :=
  if negb (String.eqb (Appointment.status this.2) "confirmed")
  then throw "Only confirmed appointments can be completed"
  else
    let this' := Appointment.set_status "completed" this.2 in
    Appointment_save (this.1, this') ;;;
    DoctorProfile_findByIdAndUpdate_inc (Appointment.doctorId this') 1 ;;;
    ret this'.

(** [reviews.reduce((sum, review) => sum + review.rating, 0)]: each sum is
    rounded to a double. *)
Definition totalRating (reviews : list (ObjectId * Review.doc)) : option Q :=
  fold_left (λ sum review, sum ≫= λ s, binary64 (s + Review.rating review.2)%Q)
            reviews (Some 0%Q).

(** The value [updateRating] assigns to [this.rating], given the reviews it
    found: the submitted value, or the quotient rounded to a double. *)
Definition assignedRating (reviews : list (ObjectId * Review.doc))
    (newRating : Q) : option Q :=
  if (length reviews =? 0)%nat then Some newRating
  else
    totalRating reviews ≫= λ total,
      binary64 (total / inject_Z (Z.of_nat (length reviews)))%Q.

(** [doctorProfileSchema.methods.updateRating]; the method returns nothing,
    the value here is [this] after the assignment.  A rating that is not
    finite fails the [max] or the [min] validator. *)
Definition updateRating (this : ObjectId * DoctorProfile.doc) (newRating : Q)
    : M DoctorProfile.doc :=
  let! st := get_store in
  let reviews := find (λ _ r, (Review.doctorId r =? this.1)%nat) (reviews st) in
  match assignedRating reviews newRating with
  | Some rating =>
      let this' := DoctorProfile.set_rating rating this.2 in
      DoctorProfile_save (this.1, this') ;;;
      ret this'
  | None => throw "DoctorProfile validation failed"
  end.

(** ** Express responses and handlers *)

(** [res.status(statusCode).json({ success, message, ...payload })] *)
Record Response (A : Type) := mkResponse {
  statusCode : nat;
  success : bool;
  message : option string;
  payload : option A
}.
Arguments mkResponse {A}.
Arguments statusCode {A}.
Arguments success {A}.
Arguments message {A}.
Arguments payload {A}.

Definition failure {A} (code : nat) (msg : string) : Response A :=
  mkResponse code false (Some msg) None.

Definition succeed {A} (code : nat) (a : A) : Response A :=
  mkResponse code true None (Some a).

(** [try { ... } catch (error) { res.status(500).json({ success: false,
    message: error.message }) }] *)
Definition handler {A} (body : M (Response A)) (st : Store)
    : Response A * Store :=
  match body st with
  | (Ok res, st') => (res, st')
  | (Throw msg, st') => (failure 500 msg, st')
  end.

(** [!x] for a body field that is absent or a string. *)
Definition falsy (x : option string) : bool :=
  match x with
  | None => true
  | Some s => String.eqb s ""
  end.

(** *** [routes/auth.js] *)

Record RegisterInput := mkRegisterInput {
  in_email : option string;
  in_password : option string;
  in_fullName : option string;
  in_role : option string
}.

(** [User.findOne({ email })] *)
Definition User_findOne_email (email : string) : M (option (ObjectId * User.doc)) :=
  let! st := get_store in
  ret (findOne (λ _ u, String.eqb (User.email u) email) (users st)).

(** Modelled from the spec: [models/User.js] is not among the sources;
    [User.create] checks the role (patient, doctor or admin) of the data
    model and creates the profile. *)
Definition User_create (u : User.doc) : M (ObjectId * User.doc) :=
  if bool_decide (User.role u ∈ ["patient"; "doctor"; "admin"])
  then
    let! st := get_store in
    let new := insertNew u (users st) in
    modify_store (with_users (λ _, new.2)) ;;;
    ret (new.1, u)
  else throw "User validation failed".

Section Register.

(** [generateToken] of [middleware/auth.js] and [toSafeObject] of
    [models/User.js]. *)
Variable Token : Type.
Variable SafeUser : Type.
Variable generateToken : ObjectId → Token.
Variable toSafeObject : ObjectId * User.doc → SafeUser.

(** [router.post('/register', ...)] *)
Definition register (body : RegisterInput) : Store → Response (Token * SafeUser) * Store :=
  handler (
    if falsy (in_email body) || falsy (in_password body)
       || falsy (in_fullName body) || falsy (in_role body)
    then ret (failure 400 "Please provide all required fields")
    else
      let email := default "" (in_email body) in
      let! existingUser := User_findOne_email email in
      if bool_decide (is_Some existingUser)
      then ret (failure 400 "Email already registered")
      else
        let! user := User_create
                       (User.mk email (default "" (in_password body))
                                (default "" (in_fullName body))
                                (default "" (in_role body))) in
        let token := generateToken user.1 in
        ret (succeed 201 (token, toSafeObject user))).

End Register.

(** *** [routes/appointments.js] *)

(** The filter object built by [GET /api/appointments]. *)
Record Query := mkQuery {
  q_patientId : option ObjectId;
  q_doctorId : option ObjectId
}.

Definition matches_query (q : Query) (a : Appointment.doc) : bool :=
  match q_patientId q with
  | Some p => (Appointment.patientId a =? p)%nat
  | None => true
  end
  && match q_doctorId q with
     | Some d => (Appointment.doctorId a =? d)%nat
     | None => true
     end.

(** [.sort({ appointmentDate: 1, appointmentTime: 1 })] *)
Definition appointment_leb (a b : ObjectId * Appointment.doc) : bool :=
  (Appointment.appointmentDate a.2 <? Appointment.appointmentDate b.2)%Z
  || ((Appointment.appointmentDate a.2 =? Appointment.appointmentDate b.2)%Z
      && String.leb (Appointment.appointmentTime a.2)
                    (Appointment.appointmentTime b.2)).

Definition appointment_le (a b : ObjectId * Appointment.doc) : Prop :=
  appointment_leb a b = true.

#[local] Instance appointment_le_dec a b : Decision (appointment_le a b).
Proof. unfold appointment_le. apply _. Defined.

(** An appointment with [patientId] and [doctorId] (and the doctor's
    [userId]) populated; a reference to no document populates to [null]. *)
Record Populated := mkPopulated {
  appointment_id : ObjectId;
  appointment : Appointment.doc;
  populated_patient : option User.doc;
  populated_doctor : option (DoctorProfile.doc * option User.doc)
}.

Definition populate (st : Store) (a : ObjectId * Appointment.doc) : Populated :=
  mkPopulated a.1 a.2
    (users st !! Appointment.patientId a.2)
    (match doctorProfiles st !! Appointment.doctorId a.2 with
     | Some d => Some (d, users st !! DoctorProfile.userId d)
     | None => None
     end).

(** [DoctorProfile.findOne({ userId })] *)
Definition DoctorProfile_findOne_userId (userId : ObjectId)
    : M (option (ObjectId * DoctorProfile.doc)) :=
  let! st := get_store in
  ret (findOne (λ _ d, (DoctorProfile.userId d =? userId)%nat) (doctorProfiles st)).

(** [Appointment.find(query).populate(...).populate(...).sort(...)] *)
Definition Appointment_find (query : Query) : M (list Populated) :=
  let! st := get_store in
  ret (populate st <$>
       merge_sort appointment_le
         (find (λ _ a, matches_query query a) (appointments st))).

(** [router.get('/', authenticate, ...)]; [user] is [req.user], the user
    that [authenticate] found for the token. *)
Definition getAppointments (user : ObjectId * User.doc)
    : Store → Response (nat * list Populated) * Store :=
  handler (
    let! query :=
      if String.eqb (User.role user.2) "patient"
      then ret (inl (mkQuery (Some user.1) None))
      else if String.eqb (User.role user.2) "doctor"
      then
        let! doctorProfile := DoctorProfile_findOne_userId user.1 in
        match doctorProfile with
        | None => ret (inr (failure 404 "Doctor profile not found"))
        | Some doctorProfile => ret (inl (mkQuery None (Some doctorProfile.1)))
        end
      else ret (inl (mkQuery None None)) in
    match query with
    | inr res => ret res
    | inl query =>
        let! appointments := Appointment_find query in
        ret (succeed 200 (length appointments, appointments))
    end).

(** [DoctorProfile.findById(doctorId).populate('userId')] *)
Definition DoctorProfile_findById_populated (doctorId : option ObjectId)
    : M (option (DoctorProfile.doc * option (ObjectId * User.doc))) :=
  let! st := get_store in
  ret (match doctorId ≫= (λ id, findById id (doctorProfiles st)) with
       | Some d =>
           Some (d, (λ u, (DoctorProfile.userId d, u))
                      <$> users st !! DoctorProfile.userId d)
       | None => None
       end).

(** [router.post('/', authenticate, authorize('patient'), ...)]: the handler
    that runs once both middlewares have let the request through. *)
Definition postAppointment (user : ObjectId * User.doc) (body : AppointmentInput)
    : Store → Response (ObjectId * Appointment.doc) * Store :=
  handler (
    let! appointment := Appointment_create user.1 body "pending" in
    let! doctor := DoctorProfile_findById_populated (in_doctorId body) in
    match doctor with
    | Some (_, userId) =>
        match userId with
        | Some userId =>
            Notification_create
              (Notification.mk userId.1 "New Appointment Request"
                 (User.fullName user.2 +:+ " has requested an appointment")
                 "appointment" false (Some appointment.1)) ;;;
            ret tt
        | None => throw "Cannot read properties of null (reading '_id')"
        end
    | None => ret tt
    end ;;;
    ret (succeed 201 appointment)).

(** The ownership check of [PATCH /:id/status]: [true] when the route
    answers 403. *)
Definition notAuthorized (user : ObjectId * User.doc) (appointment : Appointment.doc)
    : M bool :=
  if String.eqb (User.role user.2) "doctor"
  then
    let! doctorProfile := DoctorProfile_findOne_userId user.1 in
    ret (match doctorProfile with
         | None => true
         | Some doctorProfile =>
             negb (Appointment.doctorId appointment =? doctorProfile.1)%nat
         end)
  else ret false.

(** [router.patch('/:id/status', authenticate, ...)]; [user] is [req.user],
    [id] the well-formed [_id] in [req.params.id], [status] the string in
    [req.body.status]. *)
Definition patchStatus (user : ObjectId * User.doc) (id : ObjectId) (status : string)
    : Store → Response (ObjectId * Appointment.doc) * Store :=
  handler (
    if negb (bool_decide
               (status ∈ ["confirmed"; "cancelled"; "completed"; "rescheduled"]))
    then ret (failure 400 "Invalid status")
    else
      let! st := get_store in
      match findById id (appointments st) with
      | None => ret (failure 404 "Appointment not found")
      | Some appointment =>
          let! forbidden := notAuthorized user appointment in
          if forbidden : bool
          then ret (failure 403 "Not authorized")
          else
            let appointment := Appointment.set_status status appointment in
            Appointment_save (id, appointment) ;;;
            Notification_create
              (Notification.mk (Appointment.patientId appointment)
                 "Appointment Status Updated"
                 ("Your appointment status is now: " +:+ status)
                 "appointment" false (Some id)) ;;;
            ret (succeed 200 (id, appointment))
      end).

(** ** The relational backend: tables, constraints, policies, trigger *)

Module Sql.

Definition uuid := nat.

(** The rows, with the columns that the statements below read or write.
    [rating] may be NULL ([None]).  The migration also leaves [status],
    [is_verified], [is_available] and [total_consultations] without NOT
    NULL; the rows here hold a value in each of them. *)
Record profiles_row := mk_profile {
  p_email : string;
  p_full_name : string;
  p_role : string
}.

Record doctor_profiles_row := mk_doctor_profile {
  d_user_id : uuid;
  d_specialization : string;
  d_license_number : string;
  d_qualification : string;
  d_is_verified : bool;
  d_is_available : bool;
  d_rating : option Q;
  d_total_consultations : Z
}.

Record appointments_row := mk_appointment {
  a_patient_id : uuid;
  a_doctor_id : uuid;
  a_appointment_date : Z;
  a_appointment_time : Z;
  a_status : string;
  a_reason : string
}.

Record reviews_row := mk_review {
  r_appointment_id : uuid;
  r_patient_id : uuid;
  r_doctor_id : uuid;
  r_rating : Z;
  r_comment : option string
}.

(** The four tables, each keyed by its primary key [id]. *)
Record Db := mkDb {
  profiles : gmap uuid profiles_row;
  doctor_profiles : gmap uuid doctor_profiles_row;
  appointments : gmap uuid appointments_row;
  reviews : gmap uuid reviews_row
}.

Definition emptyDb : Db := mkDb ∅ ∅ ∅ ∅.

Definition set_rating (r : option Q) (d : doctor_profiles_row) : doctor_profiles_row :=
  mk_doctor_profile (d_user_id d) (d_specialization d) (d_license_number d)
    (d_qualification d) (d_is_verified d) (d_is_available d) r
    (d_total_consultations d).

(** [x IN (SELECT id FROM doctor_profiles WHERE user_id = auth.uid())] *)
Definition own_doctor_profile (db : Db) (uid x : uuid) : bool :=
  match doctor_profiles db !! x with
  | Some d => (d_user_id d =? uid)%nat
  | None => false
  end.

(** [CHECK (status IN (...))] *)
Definition status_check (a : appointments_row) : bool :=
  bool_decide (a_status a ∈
    ["pending"; "confirmed"; "completed"; "cancelled"; "rescheduled"]).

(** [CHECK (role IN ('patient', 'doctor', 'admin'))] *)
Definition role_check (p : profiles_row) : bool :=
  bool_decide (p_role p ∈ ["patient"; "doctor"; "admin"]).

(** The policy of [appointments] for SELECT, and for UPDATE in both its
    USING and WITH CHECK clauses. *)
Definition appointment_policy (db : Db) (uid : uuid) (a : appointments_row) : bool :=
  (a_patient_id a =? uid)%nat || own_doctor_profile db uid (a_doctor_id a).

(** A UNIQUE column: no row of the table other than [self] has the value. *)
Definition unique_in {A B} `{EqDecision B} (col : A → B) (tbl : gmap uuid A)
    (self : option uuid) (v : B) : bool :=
  forallb (λ r, bool_decide (Some r.1 = self) || negb (bool_decide (col r.2 = v)))
          (map_to_list tbl).

(** Rounding of a numeric to two digits after the point, ties away from
    zero. *)
Definition round_scale2 (q : Q) : Q :=
  if Qle_bool 0 q
  then (Qfloor (q * 100 + (1 # 2)) # 100)%Q
  else (- (Qfloor (- q * 100 + (1 # 2)) # 100))%Q.

(** [q::decimal(3,2)]: rounded to scale 2; [None] is the numeric field
    overflow of a rounded value of 10 or more in absolute value. *)
Definition cast_decimal_3_2 (q : Q) : option Q :=
  let r := round_scale2 q in
  if Qle_bool 10 r || Qle_bool r (-10) then None else Some r.

(** A value that a column of type [integer] holds. *)
Definition int4 (z : Z) : bool :=
  ((-2147483648 <=? z) && (z <=? 2147483647))%Z.

(** A row of [doctor_profiles] as its column types store it: [rating
    decimal(3,2)] is rounded to scale 2 and [total_consultations] is an
    [integer]; [None] is a numeric field overflow or an integer out of
    range. *)
Definition doctor_profiles_typed (NEW : doctor_profiles_row)
    : option doctor_profiles_row :=
  if int4 (d_total_consultations NEW)
  then
    match d_rating NEW with
    | Some q => (λ r, set_rating (Some r) NEW) <$> cast_decimal_3_2 q
    | None => Some NEW
    end
  else None.

(** [INSERT INTO profiles], as the authenticated user [uid]: policy "Users
    can insert own profile", the primary key, [email] UNIQUE, the [role]
    check.  The table [auth.users] that [id] refers to is the hosted
    authentication's and stays outside. *)
Definition insert_profile (uid : uuid) (id : uuid) (NEW : profiles_row) (db : Db)
    : option Db :=
  if (id =? uid)%nat
     && bool_decide (profiles db !! id = None)
     && unique_in p_email (profiles db) None (p_email NEW)
     && role_check NEW
  then Some (mkDb (<[id := NEW]> (profiles db)) (doctor_profiles db)
                  (appointments db) (reviews db))
  else None.

(** [UPDATE profiles SET ... WHERE id = ...]: policy "Users can update own
    profile" on the old and on the new row, so that [id] stays, [email]
    UNIQUE, the [role] check. *)
Definition update_profile (uid : uuid) (id : uuid) (NEW : profiles_row) (db : Db)
    : option Db :=
  match profiles db !! id with
  | Some OLD =>
      if (id =? uid)%nat
         && unique_in p_email (profiles db) (Some id) (p_email NEW)
         && role_check NEW
      then Some (mkDb (<[id := NEW]> (profiles db)) (doctor_profiles db)
                      (appointments db) (reviews db))
      else None
  | None => None
  end.

(** [INSERT INTO doctor_profiles]: the column types, policy "Doctors can
    insert own profile", the foreign key and UNIQUE on [user_id], UNIQUE on
    [license_number]; [id] defaults to a new uuid. *)
Definition insert_doctor_profile (uid : uuid) (NEW : doctor_profiles_row) (db : Db)
    : option Db :=
  if (d_user_id NEW =? uid)%nat
     && bool_decide (is_Some (profiles db !! d_user_id NEW))
     && unique_in d_user_id (doctor_profiles db) None (d_user_id NEW)
     && unique_in d_license_number (doctor_profiles db) None (d_license_number NEW)
  then
    row ← doctor_profiles_typed NEW;
    Some (mkDb (profiles db)
               (<[fresh (dom (doctor_profiles db)) := row]> (doctor_profiles db))
               (appointments db) (reviews db))
  else None.

(** [UPDATE doctor_profiles SET ... WHERE id = ...]: the column types,
    policy "Doctors can update own profile" on the old and on the new row,
    and the constraints. *)
Definition update_doctor_profile (uid : uuid) (id : uuid) (NEW : doctor_profiles_row)
    (db : Db) : option Db :=
  match doctor_profiles db !! id with
  | Some OLD =>
      if (d_user_id OLD =? uid)%nat && (d_user_id NEW =? uid)%nat
         && unique_in d_user_id (doctor_profiles db) (Some id) (d_user_id NEW)
         && unique_in d_license_number (doctor_profiles db) (Some id)
                      (d_license_number NEW)
      then
        row ← doctor_profiles_typed NEW;
        Some (mkDb (profiles db) (<[id := row]> (doctor_profiles db))
                   (appointments db) (reviews db))
      else None
  | None => None
  end.

(** [INSERT INTO appointments]: policy "Patients can create appointments",
    both foreign keys, the [status] check. *)
Definition insert_appointment (uid : uuid) (NEW : appointments_row) (db : Db)
    : option Db :=
  if (a_patient_id NEW =? uid)%nat
     && bool_decide (is_Some (profiles db !! a_patient_id NEW))
     && bool_decide (is_Some (doctor_profiles db !! a_doctor_id NEW))
     && status_check NEW
  then Some (mkDb (profiles db) (doctor_profiles db)
                  (<[fresh (dom (appointments db)) := NEW]> (appointments db))
                  (reviews db))
  else None.

(** [UPDATE appointments SET ... WHERE id = ...]: policy "Users can update
    own appointments" (USING on the old row, WITH CHECK on the new one), the
    foreign keys, the [status] check. *)
Definition update_appointment (uid : uuid) (id : uuid) (NEW : appointments_row)
    (db : Db) : option Db :=
  match appointments db !! id with
  | Some OLD =>
      if appointment_policy db uid OLD && appointment_policy db uid NEW
         && bool_decide (is_Some (profiles db !! a_patient_id NEW))
         && bool_decide (is_Some (doctor_profiles db !! a_doctor_id NEW))
         && status_check NEW
      then Some (mkDb (profiles db) (doctor_profiles db)
                      (<[id := NEW]> (appointments db)) (reviews db))
      else None
  | None => None
  end.

(** [SELECT * FROM appointments], as the authenticated user [uid]: the rows
    that policy "Patients can view own appointments" lets through. *)
Definition select_appointments (uid : uuid) (db : Db) : list (uuid * appointments_row) :=
  List.filter (λ a, appointment_policy db uid a.2) (map_to_list (appointments db)).

(** [SELECT rating FROM reviews WHERE doctor_id = doctor_id] *)
Definition ratings_of (db : Db) (doctor_id : uuid) : list Z :=
  (λ r, r_rating r.2) <$>
  List.filter (λ r, (r_doctor_id r.2 =? doctor_id)%nat) (map_to_list (reviews db)).

(** The aggregate [AVG] over integers: [NULL] over no row. *)
Definition AVG (l : list Z) : option Q :=
  match l with
  | [] => None
  | _ => Some (inject_Z (foldr Z.add 0%Z l) / inject_Z (Z.of_nat (length l)))%Q
  end.

(** [(SELECT AVG(rating)::decimal(3,2) FROM reviews WHERE doctor_id = ...)]:
    [Some None] is [NULL], [None] an overflow. *)
Definition avg_rating_decimal (db : Db) (doctor_id : uuid) : option (option Q) :=
  match AVG (ratings_of db doctor_id) with
  | None => Some None
  | Some q => Some <$> cast_decimal_3_2 q
  end.

(** The trigger function [update_doctor_rating], fired for the inserted row
    [NEW].  It is not SECURITY DEFINER: its UPDATE runs as the inserting user
    [uid], under policy "Doctors can update own profile" of
    [doctor_profiles]. *)
Definition update_doctor_rating (uid : uuid) (NEW : reviews_row) (db : Db)
    : option Db :=
  match doctor_profiles db !! r_doctor_id NEW with
  | Some d =>
      if (d_user_id d =? uid)%nat
      then
        v ← avg_rating_decimal db (r_doctor_id NEW);
        Some (mkDb (profiles db)
                   (<[r_doctor_id NEW := set_rating v d]> (doctor_profiles db))
                   (appointments db) (reviews db))
      else Some db
  | None => Some db
  end.

(** The WITH CHECK clause of policy "Patients can create reviews for own
    appointments". *)
Definition review_insert_policy (db : Db) (uid : uuid) (NEW : reviews_row) : bool :=
  (r_patient_id NEW =? uid)%nat
  && match appointments db !! r_appointment_id NEW with
     | Some a => (a_patient_id a =? uid)%nat && String.eqb (a_status a) "completed"
     | None => false
     end.

(** [INSERT INTO reviews]: the policy, the three foreign keys, UNIQUE on
    [appointment_id], the [rating] check, then the AFTER INSERT trigger; [id]
    defaults to a new uuid. *)
Definition insert_review (uid : uuid) (NEW : reviews_row) (db : Db) : option Db :=
  if review_insert_policy db uid NEW
     && bool_decide (is_Some (appointments db !! r_appointment_id NEW))
     && bool_decide (is_Some (profiles db !! r_patient_id NEW))
     && bool_decide (is_Some (doctor_profiles db !! r_doctor_id NEW))
     && unique_in r_appointment_id (reviews db) None (r_appointment_id NEW)
     && (1 <=? r_rating NEW)%Z && (r_rating NEW <=? 5)%Z
  then update_doctor_rating uid NEW
         (mkDb (profiles db) (doctor_profiles db) (appointments db)
               (<[fresh (dom (reviews db)) := NEW]> (reviews db)))
  else None.

(** The statements of an authenticated user [uid] on the four tables.
    [reviews] has no policy for UPDATE, and no table has one for DELETE, so
    row-level security lets neither touch a row. *)
Inductive statement : Type :=
| InsertProfile (uid id : uuid) (NEW : profiles_row)
| UpdateProfile (uid id : uuid) (NEW : profiles_row)
| InsertDoctorProfile (uid : uuid) (NEW : doctor_profiles_row)
| UpdateDoctorProfile (uid id : uuid) (NEW : doctor_profiles_row)
| InsertAppointment (uid : uuid) (NEW : appointments_row)
| UpdateAppointment (uid id : uuid) (NEW : appointments_row)
| InsertReview (uid : uuid) (NEW : reviews_row).

(** The database after a statement; [None] when the statement is refused
    or finds no row that it may touch. *)
Definition exec (s : statement) (db : Db) : option Db :=
  match s with
  | InsertProfile uid id NEW => insert_profile uid id NEW db
  | UpdateProfile uid id NEW => update_profile uid id NEW db
  | InsertDoctorProfile uid NEW => insert_doctor_profile uid NEW db
  | UpdateDoctorProfile uid id NEW => update_doctor_profile uid id NEW db
  | InsertAppointment uid NEW => insert_appointment uid NEW db
  | UpdateAppointment uid id NEW => update_appointment uid id NEW db
  | InsertReview uid NEW => insert_review uid NEW db
  end.

(** One accepted statement. *)
Definition step (db db' : Db) : Prop := ∃ s, exec s db = Some db'.

(** A sequence of statements, each accepted. *)
Fixpoint run (l : list statement) (db : Db) : option Db :=
  match l with
  | [] => Some db
  | s :: l => db' ← exec s db; run l db'
  end.

(** The states the database reaches from the empty tables of the
    migration. *)
Definition reachable (db : Db) : Prop := rtc step emptyDb db.

(** At most one review per appointment. *)
Definition one_review_per_appointment (db : Db) : Prop :=
  ∀ id1 id2 r1 r2,
    reviews db !! id1 = Some r1 → reviews db !! id2 = Some r2 →
    r_appointment_id r1 = r_appointment_id r2 → id1 = id2.

End Sql.

(** ** The other routes of [routes/auth.js] *)

(** [s.split(' ')] *)
Fixpoint split_space (s : string) : list string :=
  match s with
  | EmptyString => [EmptyString]
  | String c s' =>
      if Ascii.eqb c " " then EmptyString :: split_space s'
      else match split_space s' with
           | w :: ws => String c w :: ws
           | [] => [String c EmptyString]
           end
  end.

(** [s.includes(' ')] *)
Fixpoint has_space (s : string) : bool :=
  match s with
  | EmptyString => false
  | String c s' => Ascii.eqb c " " || has_space s'
  end.

(** [req.headers.authorization?.split(' ')[1]] *)
Definition bearerToken (authorization : option string) : option string :=
  authorization ≫= (λ h, split_space h !! 1).

(** A user as [.select('-passwordHash')] returns it. *)
Record UserView := mkUserView {
  view_id : ObjectId;
  view_email : string;
  view_fullName : string;
  view_role : string
}.

Definition withoutPasswordHash (id : ObjectId) (u : User.doc) : UserView :=
  mkUserView id (User.email u) (User.fullName u) (User.role u).

Record LoginInput := mkLoginInput {
  login_email : option string;
  login_password : option string
}.

Section Session.

(** [generateToken] of [middleware/auth.js], [toSafeObject] and
    [comparePassword] of [models/User.js], and [jwt.verify] with the secret
    of the server: [None] when it throws, else [decoded.userId]. *)
Variable Token : Type.
Variable SafeUser : Type.
Variable generateToken : ObjectId → Token.
Variable toSafeObject : ObjectId * User.doc → SafeUser.
Variable comparePassword : User.doc → string → bool.
Variable verify : string → option ObjectId.

(** [router.post('/login', ...)] *)
Definition login (body : LoginInput) : Store → Response (Token * SafeUser) * Store :=
  handler (
    if falsy (login_email body) || falsy (login_password body)
    then ret (failure 400 "Please provide email and password")
    else
      let! user := User_findOne_email (default "" (login_email body)) in
      match user with
      | None => ret (failure 401 "Invalid credentials")
      | Some user =>
          let isPasswordValid :=
            comparePassword user.2 (default "" (login_password body)) in
          if negb isPasswordValid
          then ret (failure 401 "Invalid credentials")
          else
            let token := generateToken user.1 in
            ret (succeed 200 (token, toSafeObject user))
      end).

(** [router.get('/me', ...)]; whatever is thrown inside is answered 401
    "Invalid token". *)
Definition me (authorization : option string) (st : Store)
    : Response UserView * Store :=
  let token := bearerToken authorization in
  if falsy token
  then (failure 401 "Not authenticated", st)
  else
    match verify (default "" token) with
    | None => (failure 401 "Invalid token", st)
    | Some userId =>
        match findById userId (users st) with
        | None => (failure 404 "User not found", st)
        | Some user => (succeed 200 (withoutPasswordHash userId user), st)
        end
    end.

End Session.

(** ** Invariants of the relational backend *)

(** The foreign keys: every reference names an existing row. *)
Definition referential_integrity (db : Sql.Db) : Prop :=
  (∀ id d, Sql.doctor_profiles db !! id = Some d →
           is_Some (Sql.profiles db !! Sql.d_user_id d))
  ∧ (∀ id a, Sql.appointments db !! id = Some a →
             is_Some (Sql.profiles db !! Sql.a_patient_id a)
             ∧ is_Some (Sql.doctor_profiles db !! Sql.a_doctor_id a))
  ∧ (∀ id r, Sql.reviews db !! id = Some r →
             is_Some (Sql.appointments db !! Sql.r_appointment_id r)
             ∧ is_Some (Sql.profiles db !! Sql.r_patient_id r)
             ∧ is_Some (Sql.doctor_profiles db !! Sql.r_doctor_id r)).

(** The CHECK constraints on the NOT NULL columns [role] of [profiles] and
    [rating] of [reviews]. *)
Definition checks_hold (db : Sql.Db) : Prop :=
  (∀ id p, Sql.profiles db !! id = Some p →
           Sql.p_role p ∈ ["patient"; "doctor"; "admin"])
  ∧ (∀ id r, Sql.reviews db !! id = Some r → (1 ≤ Sql.r_rating r ≤ 5)%Z).

(** A UNIQUE column: two rows with the same value are the same row. *)
Definition unique_column {A B} (col : A → B) (tbl : gmap Sql.uuid A) : Prop :=
  ∀ id1 id2 r1 r2, tbl !! id1 = Some r1 → tbl !! id2 = Some r2 →
                   col r1 = col r2 → id1 = id2.

(** The UNIQUE constraints on [email], [user_id] and [license_number]. *)
Definition uniques_hold (db : Sql.Db) : Prop :=
  unique_column Sql.p_email (Sql.profiles db)
  ∧ unique_column Sql.d_user_id (Sql.doctor_profiles db)
  ∧ unique_column Sql.d_license_number (Sql.doctor_profiles db).

(** [db'] has every review of [db], unchanged. *)
Definition reviews_kept (db db' : Sql.Db) : Prop :=
  ∀ id r, Sql.reviews db !! id = Some r → Sql.reviews db' !! id = Some r.

(** The time [h]:[m] written with two digits each, and with a one-digit
    hour. *)
Definition digit (n : nat) : ascii := ascii_of_nat (48 + n).

Definition HHmm (h m : nat) : string :=
  String (digit (h / 10)) (String (digit (h mod 10))
    (String ":" (String (digit (m / 10)) (String (digit (m mod 10)) EmptyString)))).

Definition Hmm (h m : nat) : string :=
  String (digit h)
    (String ":" (String (digit (m / 10)) (String (digit (m mod 10)) EmptyString))).

(** ** Vocabulary of the specification *)

(** [m] is the arithmetic mean of the ratings [l]. *)
Definition is_mean_of (m : Q) (l : list Q) : Prop :=
  (m * inject_Z (Z.of_nat (length l)) == foldr Qplus 0 l)%Q.

(** [q] has at most two decimal places. *)
Definition two_decimals (q : Q) : Prop := ∃ z : Z, (q == z # 100)%Q.

(** [r] is [q] rounded to two decimal places. *)
Definition rounded_to_2_decimals (r q : Q) : Prop :=
  two_decimals r ∧ (q - (1 # 200) <= r)%Q ∧ (r <= q + (1 # 200))%Q.

(** ** Scenarios *)

Definition alice : User.doc := User.mk "alice@example.com" "pw-a" "Alice" "patient".
Definition bob : User.doc := User.mk "bob@example.com" "pw-b" "Bob" "patient".
Definition drWho : User.doc := User.mk "who@example.com" "pw-w" "Dr Who" "doctor".
Definition drNo : User.doc := User.mk "no@example.com" "pw-n" "Dr No" "doctor".

Definition profileOf (userId : ObjectId) (license : string) : DoctorProfile.doc :=
  DoctorProfile.mk userId "cardiology" license "MD" 0 0%Q None false true 0%Q 0.

Definition booking (patientId doctorId : ObjectId) (status : string) : Appointment.doc :=
  Appointment.mk patientId doctorId 1700000000000 "09:30" status "checkup" None None.

(** Alice (1) and Bob (3) are patients, Dr Who (2) and Dr No (4) doctors
    with profiles 10 and 11; appointment 100 is Alice's with Dr Who. *)
Definition clinic (status : string) : Store :=
  mkStore
    (<[1 := alice]> (<[2 := drWho]> (<[3 := bob]> (<[4 := drNo]> ∅))))
    (<[10 := profileOf 2 "L-10"]> (<[11 := profileOf 4 "L-11"]> ∅))
    (<[100 := booking 1 10 status]> ∅)
    ∅ ∅.

(** The clinic with a second appointment (101) of Alice with Dr Who on the
    same day, at 08:15, and a third one (102) a day earlier, at 17:00. *)
Definition busyClinic : Store :=
  with_appointments
    (λ m, <[101 := Appointment.mk 1 10 1700000000000 "08:15" "pending" "x-ray"
                                  None None]>
            (<[102 := Appointment.mk 1 10 1699913600000 "17:00" "confirmed"
                                     "blood test" None None]> m))
    (clinic "pending").

Definition reviewOf (appointmentId doctorId : ObjectId) (rating : Q) : Review.doc :=
  Review.mk appointmentId 1 doctorId rating None.

(** The store [st] with the reviews [l], under the [_id]s 0, 1, ... *)
Definition with_reviews (l : list Review.doc) (st : Store) : Store :=
  mkStore (users st) (doctorProfiles st) (appointments st) (notifications st)
          (list_to_map (zip (seq 0 (length l)) l)).

(** Reviews of Dr Who (profile 10) with the ratings [l], and one review of
    Dr No (profile 11). *)
Definition reviewed (l : list Q) : Store :=
  with_reviews (reviewOf 99 11 2%Q :: imap (λ i r, reviewOf (100 + i) 10 r) l)
               (clinic "completed").

(** The tables of the relational backend with one review of doctor 0 per
    rating of [l], and one review of doctor 1. *)
Definition ratedDb (l : list Z) : Sql.Db :=
  Sql.mkDb ∅ ∅ ∅
    (list_to_map
       (zip (seq 0 (S (length l)))
            (Sql.mk_review 99 1 1 2 None
             :: imap (λ i z, Sql.mk_review (100 + i) 1 0 z None) l))).

(** Alice (1) books doctor 2 (profile 0), who confirms and completes the
    appointment (0); Alice then reviews it. *)
Definition visit (status : string) : Sql.appointments_row :=
  Sql.mk_appointment 1 0 20000 570 status "checkup".

Definition surgery : list Sql.statement :=
  [ Sql.InsertProfile 1 1 (Sql.mk_profile "alice@example.com" "Alice" "patient");
    Sql.InsertProfile 2 2 (Sql.mk_profile "who@example.com" "Dr Who" "doctor");
    Sql.InsertDoctorProfile 2
      (Sql.mk_doctor_profile 2 "cardiology" "L-10" "MD" true true (Some 0%Q) 0);
    Sql.InsertAppointment 1 (visit "pending");
    Sql.UpdateAppointment 2 0 (visit "confirmed");
    Sql.UpdateAppointment 2 0 (visit "completed");
    Sql.InsertReview 1 (Sql.mk_review 0 1 0 5 (Some "thanks")) ].

Definition surgeryDb : Sql.Db := default Sql.emptyDb (Sql.run surgery Sql.emptyDb).

(** ** Derived descriptions of the status route *)

(** The statuses [PATCH /:id/status] lets through. *)
Definition accepted_statuses : list string :=
  ["confirmed"; "cancelled"; "completed"; "rescheduled"].

(** The effect of a request that passes validation, lookup and the
    ownership check. *)
Definition statusWritten (id : ObjectId) (a : Appointment.doc) (status : string)
    (st : Store) : Store :=
  let a' := Appointment.set_status status a in
  with_notifications
    (λ ns, (insertNew
              (Notification.mk (Appointment.patientId a) "Appointment Status Updated"
                 ("Your appointment status is now: " +:+ status)
                 "appointment" false (Some id)) ns).2)
    (with_appointments (<[id := a']>) st).

(** The appointments in the answer of [GET /api/appointments]; none when
    the answer is a failure. *)
Definition listed (res : Response (nat * list Populated)) : list Populated :=
  match payload res with
  | Some (_, l) => l
  | None => []
  end.

(** * Properties *)

(** A closed decidable proposition, settled by evaluation. *)
Ltac by_compute := apply (bool_decide_unpack _); vm_compute; exact I.

(** Membership in a list that is written out: one case per element. *)
Ltac elem_cases H :=
  repeat (apply elem_of_cons in H as [->|H]); [..|by apply elem_of_nil in H].

(** ** Queries *)

Lemma elem_of_find {A} (f : ObjectId → A → bool) (coll : gmap ObjectId A) id a :
  (id, a) ∈ find f coll ↔ coll !! id = Some a ∧ f id a = true.
Proof.
  unfold find. rewrite list_elem_of_In, filter_In, <- list_elem_of_In.
  rewrite elem_of_map_to_list. reflexivity.
Qed.

Lemma find_nil {A} (f : ObjectId → A → bool) (coll : gmap ObjectId A) :
  find f coll = [] ↔ ∀ id a, coll !! id = Some a → f id a = false.
Proof.
  split.
  - intros Hnil id a Hin. destruct (f id a) eqn:Hf; [|done].
    assert ((id, a) ∈ find f coll) as Hel by (by apply elem_of_find).
    rewrite Hnil in Hel. by apply elem_of_nil in Hel.
  - intros Hall. destruct (find f coll) as [|[id a] l] eqn:Hfind; [done|].
    assert ((id, a) ∈ find f coll) as Hel by (rewrite Hfind; left).
    apply elem_of_find in Hel as [Hin Hf]. rewrite (Hall _ _ Hin) in Hf. done.
Qed.

Lemma findOne_Some {A} (f : ObjectId → A → bool) (coll : gmap ObjectId A) id a :
  findOne f coll = Some (id, a) → coll !! id = Some a ∧ f id a = true.
Proof.
  unfold findOne. intros Hhead. apply head_Some_elem_of in Hhead.
  by apply elem_of_find.
Qed.

Lemma findOne_None {A} (f : ObjectId → A → bool) (coll : gmap ObjectId A) :
  findOne f coll = None ↔ ∀ id a, coll !! id = Some a → f id a = false.
Proof. unfold findOne. rewrite head_None. apply find_nil. Qed.

Lemma insertNew_fresh {A} (d : A) (coll : gmap ObjectId A) :
  coll !! (insertNew d coll).1 = None.
Proof. simpl. apply not_elem_of_dom, is_fresh. Qed.

Lemma insertNew_size {A} (d : A) (coll : gmap ObjectId A) :
  size (insertNew d coll).2 = S (size coll).
Proof. simpl. apply map_size_insert_None, not_elem_of_dom, is_fresh. Qed.

(** ** The status route *)

Lemma accepted_in_enum status :
  status ∈ accepted_statuses → status ∈ Appointment.status_enum.
Proof.
  unfold accepted_statuses, Appointment.status_enum.
  rewrite !elem_of_cons. tauto.
Qed.

(** The ownership check reads the store and leaves it as it is. *)
Lemma notAuthorized_store user a st : (notAuthorized user a st).2 = st.
Proof.
  unfold notAuthorized. destruct (String.eqb _ _); [|done].
  unfold DoctorProfile_findOne_userId, bind, get_store, ret. simpl. done.
Qed.

Lemma notAuthorized_Ok user a st : ∃ b, notAuthorized user a st = (Ok b, st).
Proof.
  unfold notAuthorized. destruct (String.eqb _ _); [|by eexists].
  unfold DoctorProfile_findOne_userId, bind, get_store, ret. simpl. by eexists.
Qed.

(** What the ownership check answers: [true] exactly for a doctor whose
    profile, if any, is not the one the appointment names. *)
Lemma notAuthorized_true user a st :
  notAuthorized user a st = (Ok true, st) ↔
  User.role user.2 = "doctor" ∧
  ¬ ∃ p, findOne (λ _ d, (DoctorProfile.userId d =? user.1)%nat)
                 (doctorProfiles st) = Some p
         ∧ Appointment.doctorId a = p.1.
Proof.
  unfold notAuthorized.
  destruct (String.eqb (User.role user.2) "doctor") eqn:Hrole.
  - apply String.eqb_eq in Hrole.
    unfold DoctorProfile_findOne_userId, bind, get_store, ret. simpl.
    destruct (findOne _ _) as [p|] eqn:Hp.
    + destruct (Nat.eqb_spec (Appointment.doctorId a) p.1) as [Heq|Hne]; simpl.
      * split; [intros [=]|]. intros [_ Hno]. destruct Hno. eauto.
      * split; [|done]. intros _. split; [done|]. intros (q & [= <-] & Hq). done.
    + split; [|done]. intros _. split; [done|]. intros (q & [=] & _).
  - apply String.eqb_neq in Hrole. unfold ret. split; [intros [=]|].
    intros [Hd _]. done.
Qed.

Lemma patchStatus_invalid user id status st :
  status ∉ accepted_statuses →
  patchStatus user id status st = (failure 400 "Invalid status", st).
Proof.
  intros Hno. unfold patchStatus, handler.
  rewrite bool_decide_eq_false_2 by exact Hno. done.
Qed.

Lemma patchStatus_not_found user id status st :
  status ∈ accepted_statuses → appointments st !! id = None →
  patchStatus user id status st = (failure 404 "Appointment not found", st).
Proof.
  intros Hin Hnone. unfold patchStatus, handler.
  rewrite bool_decide_eq_true_2 by exact Hin. simpl.
  unfold bind, get_store, findById. simpl. rewrite Hnone. done.
Qed.

Lemma patchStatus_forbidden user id status st a :
  status ∈ accepted_statuses → appointments st !! id = Some a →
  notAuthorized user a st = (Ok true, st) →
  patchStatus user id status st = (failure 403 "Not authorized", st).
Proof.
  intros Hin Hsome Hauth. unfold patchStatus, handler.
  rewrite bool_decide_eq_true_2 by exact Hin. simpl.
  unfold bind, get_store, findById. simpl. rewrite Hsome, Hauth. done.
Qed.

(** The validators of the paths other than [status] do not look at the
    status. *)
Lemma Appointment_validate_set_status a status :
  Appointment_validate a = true → status ∈ Appointment.status_enum →
  Appointment_validate (Appointment.set_status status a) = true.
Proof.
  unfold Appointment_validate. simpl. intros Hv Hin.
  rewrite !andb_true_iff in Hv. destruct Hv as [[[[H1 H2] H3] _] H5].
  rewrite H1, H2, H3, H5. by rewrite bool_decide_eq_true_2.
Qed.

(** For a document loaded from the store, writing the document after an
    assignment to [status] is the update of that path on the stored one. *)
Lemma Appointment_save_loaded (coll : gmap ObjectId Appointment.doc) id a status :
  coll !! id = Some a →
  <[id := Appointment.set_status status a]> coll
  = alter (Appointment.set_status status) id coll.
Proof.
  intros Ha. apply map_eq. intros j. destruct (decide (j = id)) as [->|Hne].
  - by rewrite lookup_insert_eq, lookup_alter_eq, Ha.
  - by rewrite lookup_insert_ne, lookup_alter_ne.
Qed.

Lemma Appointment_save_run (this : ObjectId * Appointment.doc) st :
  Appointment_validate this.2 = true → is_Some (appointments st !! this.1) →
  Appointment_save this st = (Ok tt, with_appointments (<[this.1 := this.2]>) st).
Proof.
  intros Hv [a Ha]. unfold Appointment_save, bind, get_store. by rewrite Hv, Ha.
Qed.

Lemma Appointment_save_invalid (this : ObjectId * Appointment.doc) st :
  Appointment_validate this.2 = false →
  Appointment_save this st = (Throw "Appointment validation failed", st).
Proof. intros Hv. unfold Appointment_save. by rewrite Hv. Qed.

Lemma patchStatus_written user id status st a :
  status ∈ accepted_statuses → appointments st !! id = Some a →
  notAuthorized user a st = (Ok false, st) →
  Appointment_validate (Appointment.set_status status a) = true →
  patchStatus user id status st =
    (succeed 200 (id, Appointment.set_status status a), statusWritten id a status st).
Proof.
  intros Hin Hsome Hauth Hvalid. unfold patchStatus, handler.
  rewrite bool_decide_eq_true_2 by exact Hin. simpl.
  unfold bind at 1. unfold get_store at 1. unfold findById. rewrite Hsome.
  unfold bind at 1. rewrite Hauth.
  unfold bind at 1.
  rewrite (Appointment_save_run (id, Appointment.set_status status a) st Hvalid)
    by (simpl; by eexists).
  unfold bind, Notification_create, get_store, modify_store, bind, ret.
  simpl. done.
Qed.

(** A stored appointment that fails a validator of the schema cannot be
    saved: the answer is 500 and nothing is written. *)
Lemma patchStatus_save_fails user id status st a :
  status ∈ accepted_statuses → appointments st !! id = Some a →
  notAuthorized user a st = (Ok false, st) →
  Appointment_validate (Appointment.set_status status a) = false →
  patchStatus user id status st = (failure 500 "Appointment validation failed", st).
Proof.
  intros Hin Hsome Hauth Hvalid. unfold patchStatus, handler.
  rewrite bool_decide_eq_true_2 by exact Hin. simpl.
  unfold bind at 1. unfold get_store at 1. unfold findById. rewrite Hsome.
  unfold bind at 1. rewrite Hauth.
  unfold bind at 1.
  by rewrite (Appointment_save_invalid (id, Appointment.set_status status a) st Hvalid).
Qed.

(** Every request to the status route ends in one of five ways. *)
Lemma patchStatus_cases user id status st :
  ((status ∉ accepted_statuses)
   ∧ patchStatus user id status st = (failure 400 "Invalid status", st))
  ∨ (status ∈ accepted_statuses ∧ appointments st !! id = None
     ∧ patchStatus user id status st = (failure 404 "Appointment not found", st))
  ∨ (∃ a, status ∈ accepted_statuses ∧ appointments st !! id = Some a
          ∧ notAuthorized user a st = (Ok true, st)
          ∧ patchStatus user id status st = (failure 403 "Not authorized", st))
  ∨ (∃ a, status ∈ accepted_statuses ∧ appointments st !! id = Some a
          ∧ notAuthorized user a st = (Ok false, st)
          ∧ Appointment_validate (Appointment.set_status status a) = false
          ∧ patchStatus user id status st
            = (failure 500 "Appointment validation failed", st))
  ∨ (∃ a, status ∈ accepted_statuses ∧ appointments st !! id = Some a
          ∧ notAuthorized user a st = (Ok false, st)
          ∧ Appointment_validate (Appointment.set_status status a) = true
          ∧ patchStatus user id status st =
              (succeed 200 (id, Appointment.set_status status a),
               statusWritten id a status st)).
Proof.
  destruct (decide (status ∈ accepted_statuses)) as [Hin|Hno].
  - right. destruct (appointments st !! id) as [a|] eqn:Ha.
    + right. destruct (notAuthorized_Ok user a st) as [[|] Hb].
      * left. exists a. eauto using patchStatus_forbidden.
      * right.
        destruct (Appointment_validate (Appointment.set_status status a)) eqn:Hv.
        -- right. exists a. eauto 10 using patchStatus_written.
        -- left. exists a. eauto 10 using patchStatus_save_fails.
    + left. eauto using patchStatus_not_found.
  - left. eauto using patchStatus_invalid.
Qed.

(** The status route never writes to a doctor profile. *)
Lemma patchStatus_keeps_doctorProfiles user id status st :
  doctorProfiles (patchStatus user id status st).2 = doctorProfiles st.
Proof.
  destruct (patchStatus_cases user id status st)
    as [[_ ->]|[(_ & _ & ->)|[(a & _ & _ & _ & ->)|[(a & _ & _ & _ & _ & ->)
       |(a & _ & _ & _ & _ & ->)]]]]; done.
Qed.

(** A request that gets through is answered 200, and its one write besides
    the status is one new notification, to the patient of the appointment,
    naming the new status. *)
Lemma patchStatus_notifies_patient user id status st a :
  status ∈ accepted_statuses → appointments st !! id = Some a →
  notAuthorized user a st = (Ok false, st) →
  Appointment_validate (Appointment.set_status status a) = true →
  let st' := (patchStatus user id status st).2 in
  let n := Notification.mk (Appointment.patientId a) "Appointment Status Updated"
             ("Your appointment status is now: " +:+ status)
             "appointment" false (Some id) in
  notifications st' = <[fresh (dom (notifications st)) := n]> (notifications st)
  ∧ size (notifications st') = S (size (notifications st)).
Proof.
  intros Hin Ha Hb Hv. rewrite (patchStatus_written _ _ _ _ _ Hin Ha Hb Hv). simpl.
  split; [done|]. apply map_size_insert_None, not_elem_of_dom, is_fresh.
Qed.

(** The status route answers 403 to doctors only. *)
Lemma patchStatus_403_only_doctor user id status st :
  statusCode (patchStatus user id status st).1 = 403 → User.role user.2 = "doctor".
Proof.
  destruct (patchStatus_cases user id status st)
    as [[_ ->]|[(_ & _ & ->)|[(a & _ & _ & Hb & ->)|[(a & _ & _ & _ & _ & ->)
       |(a & _ & _ & _ & _ & ->)]]]];
    simpl; try discriminate.
  intros _. by apply notAuthorized_true in Hb as [Hrole _].
Qed.

(** The method [complete] refuses an appointment that is not confirmed and
    writes nothing. *)
Lemma complete_requires_confirmed this st :
  Appointment.status this.2 ≠ "confirmed" →
  complete this st = (Throw "Only confirmed appointments can be completed", st).
Proof.
  intros Hne. unfold complete. apply String.eqb_neq in Hne. rewrite Hne. done.
Qed.

(** The method [complete] on a confirmed appointment that is stored and
    passes the validators of the schema stores the status "completed" and
    adds one to the consultations of the doctor. *)
Lemma complete_confirmed (this : ObjectId * Appointment.doc) st :
  Appointment.status this.2 = "confirmed" →
  is_Some (appointments st !! this.1) →
  Appointment_validate this.2 = true →
  complete this st =
    (Ok (Appointment.set_status "completed" this.2),
     with_doctorProfiles
       (alter (DoctorProfile.inc_totalConsultations 1) (Appointment.doctorId this.2))
       (with_appointments (<[this.1 := Appointment.set_status "completed" this.2]>) st)).
Proof.
  intros Heq Hsome Hvalid. unfold complete.
  apply String.eqb_eq in Heq. rewrite Heq. simpl. unfold bind at 1.
  rewrite Appointment_save_run; [done| |done].
  apply Appointment_validate_set_status; [done|by_compute].
Qed.

(** C1, at a pending appointment: the method [complete] of the model throws
    "Only confirmed appointments can be completed", yet the status route,
    asked by the patient for "completed", answers 200 and stores the status
    "completed". *)
Theorem patchStatus_completes_pending_appointment :
  let res := patchStatus (1, alice) 100 "completed" (clinic "pending") in
  Appointment.status <$> appointments (clinic "pending") !! 100 = Some "pending"
  ∧ statusCode res.1 = 200 ∧ success res.1 = true
  ∧ Appointment.status <$> appointments res.2 !! 100 = Some "completed"
  ∧ complete (100, booking 1 10 "pending") (clinic "pending")
    = (Throw "Only confirmed appointments can be completed", clinic "pending").
Proof. vm_compute. done. Qed.

(** C3, at a confirmed appointment that its doctor completes through the
    status route: the answer is 200, one notification goes to the patient,
    and [totalConsultations] of the doctor stays 0, whereas the method
    [complete] of the model makes it 1. *)
Theorem patchStatus_completed_keeps_totalConsultations :
  let res := patchStatus (2, drWho) 100 "completed" (clinic "confirmed") in
  statusCode res.1 = 200
  ∧ Appointment.status <$> appointments res.2 !! 100 = Some "completed"
  ∧ DoctorProfile.totalConsultations <$> doctorProfiles (clinic "confirmed") !! 10
    = Some 0%Z
  ∧ DoctorProfile.totalConsultations <$> doctorProfiles res.2 !! 10 = Some 0%Z
  ∧ (λ n, Notification.userId n.2) <$> map_to_list (notifications res.2) = [1]
  ∧ DoctorProfile.totalConsultations <$>
      doctorProfiles (complete (100, booking 1 10 "confirmed") (clinic "confirmed")).2
        !! 10 = Some 1%Z.
Proof. vm_compute. done. Qed.

(** C5, the claim at "pending": one of the five values of the [enum], yet
    the status route answers 400 "Invalid status" and leaves the store as it
    is. *)
Lemma patchStatus_rejects_pending :
  "pending" ∈ Appointment.status_enum
  ∧ patchStatus (2, drWho) 100 "pending" (clinic "confirmed")
    = (failure 400 "Invalid status", clinic "confirmed").
Proof. split; [by_compute|]. vm_compute. done. Qed.

(** C5, amended: the status route lets exactly the four values confirmed,
    cancelled, completed and rescheduled through its input validation; any
    other string, "pending" among them, gets 400 "Invalid status" and the
    store stays as it is. *)
Theorem patchStatus_validates_four_statuses user id status st :
  ((statusCode (patchStatus user id status st).1 ≠ 400)
   ↔ status ∈ ["confirmed"; "cancelled"; "completed"; "rescheduled"])
  ∧ ((status ∉ ["confirmed"; "cancelled"; "completed"; "rescheduled"])
     → patchStatus user id status st = (failure 400 "Invalid status", st)).
Proof.
  fold accepted_statuses. split; [|apply patchStatus_invalid].
  destruct (patchStatus_cases user id status st)
    as [[Hno ->]|[(Hin & _ & ->)|[(a & Hin & _ & _ & ->)|[(a & Hin & _ & _ & _ & ->)
       |(a & Hin & _ & _ & _ & ->)]]]];
    simpl; split; try done.
Qed.

Lemma patchStatus_validates_four_statuses_witness :
  ("archived" ∉ ["confirmed"; "cancelled"; "completed"; "rescheduled"])
  ∧ patchStatus (1, alice) 100 "archived" (clinic "pending")
    = (failure 400 "Invalid status", clinic "pending").
Proof.
  assert ("archived" ∉ ["confirmed"; "cancelled"; "completed"; "rescheduled"])
    as Hno by by_compute.
  split; [exact Hno|].
  exact (proj2 (patchStatus_validates_four_statuses
                  (1, alice) 100 "archived" (clinic "pending")) Hno).
Defined.

(** C4, the claim at a doctor who asks for "pending" on an appointment of
    another doctor: the doctor reference (10) is not the profile of the
    acting doctor (11), yet the answer is 400, not 403, so the equivalence
    fails. *)
Lemma patchStatus_other_doctor_not_forbidden :
  let res := patchStatus (4, drNo) 100 "pending" (clinic "confirmed") in
  appointments (clinic "confirmed") !! 100 = Some (booking 1 10 "confirmed")
  ∧ findOne (λ _ d, (DoctorProfile.userId d =? 4)%nat)
            (doctorProfiles (clinic "confirmed")) = Some (11, profileOf 4 "L-11")
  ∧ statusCode res.1 = 400
  ∧ ¬ (statusCode res.1 = 403
       ↔ User.role drNo = "doctor"
         ∧ ¬ ∃ p, findOne (λ _ d, (DoctorProfile.userId d =? 4)%nat)
                          (doctorProfiles (clinic "confirmed")) = Some p
                  ∧ Appointment.doctorId (booking 1 10 "confirmed") = p.1).
Proof.
  split; [reflexivity|]. split; [vm_compute; reflexivity|].
  split; [vm_compute; reflexivity|]. intros [_ Hback].
  assert (statusCode
            (patchStatus (4, drNo) 100 "pending" (clinic "confirmed")).1 = 403)
    as H403.
  { apply Hback. split; [reflexivity|]. intros (p & Hp & Hid).
    vm_compute in Hp. injection Hp as <-. discriminate Hid. }
  vm_compute in H403. discriminate H403.
Qed.

(** C4, amended: for a request whose status passes the input validation and
    whose appointment exists, the status route answers 403 if and only if the
    acting user is a doctor and the doctor reference of the appointment is not
    the [_id] of the doctor profile found for that user (none found
    included); a patient's request passes the authorization step, whoever the
    patient of the appointment is: the ownership check lets it through and
    the answer is not 403. *)
Theorem patchStatus_forbidden_iff user id status st a :
  status ∈ ["confirmed"; "cancelled"; "completed"; "rescheduled"] →
  appointments st !! id = Some a →
  (statusCode (patchStatus user id status st).1 = 403
   ↔ User.role user.2 = "doctor"
     ∧ ¬ ∃ p, findOne (λ _ d, (DoctorProfile.userId d =? user.1)%nat)
                      (doctorProfiles st) = Some p
              ∧ Appointment.doctorId a = p.1)
  ∧ (User.role user.2 = "patient"
     → notAuthorized user a st = (Ok false, st)
       ∧ statusCode (patchStatus user id status st).1 ≠ 403).
Proof.
  fold accepted_statuses. intros Hin Ha.
  destruct (notAuthorized_Ok user a st) as [[|] Hb].
  - rewrite (patchStatus_forbidden _ _ _ _ _ Hin Ha Hb). simpl.
    apply notAuthorized_true in Hb. split; [done|].
    intros Hpat. destruct Hb as [Hdoc _]. congruence.
  - assert (statusCode (patchStatus user id status st).1 ≠ 403) as Hcode.
    { destruct (Appointment_validate (Appointment.set_status status a)) eqn:Hv.
      - by rewrite (patchStatus_written _ _ _ _ _ Hin Ha Hb Hv).
      - by rewrite (patchStatus_save_fails _ _ _ _ _ Hin Ha Hb Hv). }
    split; [|done]. split; [done|].
    intros Hrhs. apply notAuthorized_true in Hrhs. congruence.
Qed.

Lemma patchStatus_forbidden_iff_witness :
  statusCode (patchStatus (4, drNo) 100 "completed" (clinic "confirmed")).1 = 403
  ∧ statusCode (patchStatus (3, bob) 100 "completed" (clinic "confirmed")).1 ≠ 403.
Proof.
  assert ("completed" ∈ ["confirmed"; "cancelled"; "completed"; "rescheduled"])
    as Hin by by_compute.
  split.
  - apply (patchStatus_forbidden_iff (4, drNo) 100 "completed" (clinic "confirmed")
             (booking 1 10 "confirmed") Hin eq_refl).
    split; [reflexivity|]. intros (p & Hp & Hid).
    vm_compute in Hp. injection Hp as <-. discriminate Hid.
  - apply (patchStatus_forbidden_iff (3, bob) 100 "completed" (clinic "confirmed")
             (booking 1 10 "confirmed") Hin eq_refl).
    reflexivity.
Defined.

(** ** Registration *)

Section RegisterProperties.

Context {Token SafeUser : Type}.
Variable generateToken : ObjectId → Token.
Variable toSafeObject : ObjectId * User.doc → SafeUser.

Lemma register_missing_field body st :
  falsy (in_email body) || falsy (in_password body)
  || falsy (in_fullName body) || falsy (in_role body) = true →
  register Token SafeUser generateToken toSafeObject body st
  = (failure 400 "Please provide all required fields", st).
Proof. intros Hf. unfold register, handler. rewrite Hf. done. Qed.

Lemma register_existing_email body st id u :
  falsy (in_email body) || falsy (in_password body)
  || falsy (in_fullName body) || falsy (in_role body) = false →
  users st !! id = Some u → in_email body = Some (User.email u) →
  register Token SafeUser generateToken toSafeObject body st
  = (failure 400 "Email already registered", st).
Proof.
  intros Hf Hu He. unfold register, handler. rewrite Hf, He. simpl.
  unfold bind at 1. unfold User_findOne_email, bind, get_store, ret. simpl.
  destruct (findOne _ _) as [p|] eqn:Hfind; [done|].
  pose proof (proj1 (findOne_None _ _) Hfind id u Hu) as Hno. simpl in Hno.
  by rewrite String.eqb_refl in Hno.
Qed.

End RegisterProperties.

(** C9, the claim at a request with the email of a registered user and no
    password: the answer is 400, and its message is "Please provide all
    required fields", not "Email already registered". *)
Lemma register_registered_email_without_password :
  users (clinic "pending") !! 1 = Some alice
  ∧ register nat string id (λ u, User.email u.2)
      (mkRegisterInput (Some (User.email alice)) None (Some "Alice") (Some "patient"))
      (clinic "pending")
    = (failure 400 "Please provide all required fields", clinic "pending").
Proof. vm_compute. done. Qed.

(** C9, amended: a register request whose email is the email of a registered
    user gets 400 with [success = false], and the store stays as it is; the
    message is "Email already registered" when email, password, full name
    and role are all provided, and "Please provide all required fields"
    otherwise. *)
Theorem register_existing_email_400 {Token SafeUser : Type}
    (generateToken : ObjectId → Token)
    (toSafeObject : ObjectId * User.doc → SafeUser) body st id u :
  users st !! id = Some u → in_email body = Some (User.email u) →
  let res := register Token SafeUser generateToken toSafeObject body st in
  statusCode res.1 = 400 ∧ success res.1 = false ∧ res.2 = st
  ∧ message res.1 =
      Some (if falsy (in_email body) || falsy (in_password body)
               || falsy (in_fullName body) || falsy (in_role body)
            then "Please provide all required fields"
            else "Email already registered").
Proof.
  intros Hu He res. subst res.
  destruct (falsy (in_email body) || falsy (in_password body)
            || falsy (in_fullName body) || falsy (in_role body)) eqn:Hf.
  - by rewrite (register_missing_field _ _ _ _ Hf).
  - by rewrite (register_existing_email _ _ _ _ _ _ Hf Hu He).
Qed.

Lemma register_existing_email_400_witness :
  let res := register nat string id (λ u, User.email u.2)
               (mkRegisterInput (Some "alice@example.com") (Some "secret")
                                (Some "Alice Again") (Some "patient"))
               (clinic "pending") in
  statusCode res.1 = 400 ∧ success res.1 = false ∧ res.2 = clinic "pending"
  ∧ message res.1 = Some "Email already registered".
Proof.
  exact (register_existing_email_400 id (λ u, User.email u.2)
           (mkRegisterInput (Some "alice@example.com") (Some "secret")
                            (Some "Alice Again") (Some "patient"))
           (clinic "pending") 1 alice eq_refl eq_refl).
Defined.

(** ** Booking *)

(** A body whose fields pass casting and the validators of the schema. *)
Lemma Appointment_cast_valid patientId doctorId date time reason :
  is_Date date = true → matches_HHmm time = true → trim reason ≠ "" →
  Appointment_cast patientId
    (mkAppointmentInput (Some doctorId) (Some date) (Some time) (Some reason))
    "pending"
  = Some (Appointment.mk patientId doctorId date time "pending" (trim reason)
                         None None).
Proof.
  intros Hdate Htime Hreason. unfold Appointment_cast, Appointment_validate. simpl.
  assert (String.eqb time "" = false) as ->.
  { apply String.eqb_neq. intros ->. discriminate Htime. }
  rewrite Hdate, Htime. apply String.eqb_neq in Hreason. rewrite Hreason. done.
Qed.

(** A body that fails a validator: [Appointment.create] throws, the answer
    is 500 and nothing is written. *)
Lemma postAppointment_invalid user body st :
  Appointment_cast user.1 body "pending" = None →
  postAppointment user body st = (failure 500 "Appointment validation failed", st).
Proof.
  intros Hcast. unfold postAppointment, handler, bind, Appointment_create.
  rewrite Hcast. done.
Qed.

(** C10, the claim at a request that names no existing doctor profile and
    gives no reason: [Appointment.create] throws on the required [reason],
    the answer is 500 and no appointment is created. *)
Lemma postAppointment_unknown_doctor_without_reason :
  let res := postAppointment (3, bob)
               (mkAppointmentInput (Some 77) (Some 1700000000000%Z)
                                   (Some "10:15") None)
               (clinic "pending") in
  doctorProfiles (clinic "pending") !! 77 = None
  ∧ statusCode res.1 = 500 ∧ success res.1 = false
  ∧ res.2 = clinic "pending".
Proof. vm_compute. done. Qed.

(** C10, amended: a patient's request whose [doctorId] is the [_id] of no
    doctor profile, and whose date (a date of JavaScript), time (HH:mm) and
    reason (not blank) pass the validators of the schema, creates the
    appointment with status "pending" under a new [_id], is answered 201 with
    it, and emits no notification. *)
Theorem postAppointment_unknown_doctor user doctorId date time reason st :
  doctorProfiles st !! doctorId = None →
  is_Date date = true → matches_HHmm time = true → trim reason ≠ "" →
  let body := mkAppointmentInput (Some doctorId) (Some date) (Some time)
                                 (Some reason) in
  let a := Appointment.mk user.1 doctorId date time "pending" (trim reason)
                          None None in
  let id := fresh (dom (appointments st)) in
  let res := postAppointment user body st in
  res.1 = succeed 201 (id, a)
  ∧ appointments st !! id = None
  ∧ appointments res.2 = <[id := a]> (appointments st)
  ∧ notifications res.2 = notifications st.
Proof.
  intros Hdoc Hdate Htime Hreason body a id res. subst res.
  unfold postAppointment, handler.
  unfold bind at 1. unfold Appointment_create. subst body.
  rewrite (Appointment_cast_valid _ _ _ _ _ Hdate Htime Hreason).
  unfold bind, get_store, modify_store, ret, DoctorProfile_findById_populated,
    findById. simpl. rewrite Hdoc. simpl.
  repeat split. apply not_elem_of_dom, is_fresh.
Qed.

Lemma postAppointment_unknown_doctor_witness :
  let res := postAppointment (3, bob)
               (mkAppointmentInput (Some 77) (Some 1700000000000%Z)
                                   (Some "10:15") (Some " sore throat "))
               (clinic "pending") in
  res.1 = succeed 201
            (101, Appointment.mk 3 77 1700000000000 "10:15" "pending"
                               "sore throat" None None)
  ∧ appointments (clinic "pending") !! 101 = None
  ∧ appointments res.2
    = <[101 := Appointment.mk 3 77 1700000000000 "10:15" "pending"
                            "sore throat" None None]>
        (appointments (clinic "pending"))
  ∧ notifications res.2 = notifications (clinic "pending").
Proof.
  assert (trim " sore throat " ≠ "") as Hreason by (vm_compute; discriminate).
  exact (postAppointment_unknown_doctor (3, bob) 77 1700000000000 "10:15"
           " sore throat " (clinic "pending") eq_refl eq_refl eq_refl Hreason).
Defined.

(** ** Listing *)

Lemma elem_of_Appointment_find query st p :
  p ∈ populate st <$>
        merge_sort appointment_le
          (find (λ _ a, matches_query query a) (appointments st)) →
  appointments st !! appointment_id p = Some (appointment p)
  ∧ matches_query query (appointment p) = true.
Proof.
  intros Hp. apply list_elem_of_fmap in Hp as ([id a] & -> & Ha).
  rewrite merge_sort_Permutation in Ha. by apply elem_of_find in Ha.
Qed.

Lemma getAppointments_patient user st :
  User.role user.2 = "patient" →
  listed (getAppointments user st).1
  = populate st <$>
      merge_sort appointment_le
        (find (λ _ a, matches_query (mkQuery (Some user.1) None) a) (appointments st)).
Proof.
  intros Hrole. unfold getAppointments, handler. rewrite Hrole. done.
Qed.

Lemma getAppointments_doctor user st p :
  User.role user.2 = "doctor" →
  p ∈ listed (getAppointments user st).1 →
  ∃ dp, findOne (λ _ d, (DoctorProfile.userId d =? user.1)%nat) (doctorProfiles st)
        = Some dp
        ∧ p ∈ populate st <$>
                merge_sort appointment_le
                  (find (λ _ a, matches_query (mkQuery None (Some dp.1)) a)
                        (appointments st)).
Proof.
  intros Hrole. unfold getAppointments, handler. rewrite Hrole. simpl.
  unfold bind at 1. unfold bind at 1.
  unfold DoctorProfile_findOne_userId, bind, get_store, ret. simpl.
  destruct (findOne _ _) as [dp|] eqn:Hfind; simpl.
  - intros Hp. by exists dp.
  - intros Hp. by apply elem_of_nil in Hp.
Qed.

(** The listing writes nothing. *)
Lemma getAppointments_store user st : (getAppointments user st).2 = st.
Proof.
  unfold getAppointments, handler.
  destruct (String.eqb (User.role user.2) "patient"); [done|].
  destruct (String.eqb (User.role user.2) "doctor"); [|done].
  unfold bind at 1. unfold bind at 1.
  unfold DoctorProfile_findOne_userId, bind, get_store, ret. simpl.
  by destruct (findOne _ _).
Qed.

(** C7: an appointment listed for a patient is a stored appointment with
    that patient as [patientId]; one listed for a doctor has as [doctorId]
    the [_id] of the doctor profile found for that doctor; and it is in the
    listing of no other caller of the same role. *)
Theorem getAppointments_scoped user st p :
  User.role user.2 = "patient" ∨ User.role user.2 = "doctor" →
  p ∈ listed (getAppointments user st).1 →
  appointments st !! appointment_id p = Some (appointment p)
  ∧ (User.role user.2 = "patient" →
     Appointment.patientId (appointment p) = user.1)
  ∧ (User.role user.2 = "doctor" →
     ∃ dp, findOne (λ _ d, (DoctorProfile.userId d =? user.1)%nat)
                   (doctorProfiles st) = Some dp
           ∧ DoctorProfile.userId dp.2 = user.1
           ∧ Appointment.doctorId (appointment p) = dp.1)
  ∧ (∀ other q, User.role other.2 = User.role user.2 → other.1 ≠ user.1 →
       q ∈ listed (getAppointments other st).1 →
       appointment_id q ≠ appointment_id p).
Proof.
  assert (Hpat : ∀ u x, User.role u.2 = "patient" →
            x ∈ listed (getAppointments u st).1 →
            appointments st !! appointment_id x = Some (appointment x)
            ∧ Appointment.patientId (appointment x) = u.1).
  { intros u x Hrole Hx. rewrite (getAppointments_patient _ _ Hrole) in Hx.
    apply elem_of_Appointment_find in Hx as [Hsome Hq]. split; [done|].
    unfold matches_query in Hq. simpl in Hq. rewrite andb_true_r in Hq.
    by apply Nat.eqb_eq in Hq. }
  assert (Hdoc : ∀ u x, User.role u.2 = "doctor" →
            x ∈ listed (getAppointments u st).1 →
            appointments st !! appointment_id x = Some (appointment x)
            ∧ ∃ dp, findOne (λ _ d, (DoctorProfile.userId d =? u.1)%nat)
                            (doctorProfiles st) = Some dp
                    ∧ doctorProfiles st !! dp.1 = Some dp.2
                    ∧ DoctorProfile.userId dp.2 = u.1
                    ∧ Appointment.doctorId (appointment x) = dp.1).
  { intros u x Hrole Hx.
    destruct (getAppointments_doctor _ _ _ Hrole Hx) as (dp & Hfind & Hin).
    apply elem_of_Appointment_find in Hin as [Hsome Hq]. split; [done|].
    exists dp. destruct dp as [i d]. apply findOne_Some in Hfind as Hd.
    destruct Hd as [Hd Hu]. apply Nat.eqb_eq in Hu.
    unfold matches_query in Hq. simpl in Hq. apply Nat.eqb_eq in Hq. done. }
  intros [Hrole|Hrole] Hp.
  - destruct (Hpat _ _ Hrole Hp) as [Hsome Hown]. split; [done|].
    split; [done|]. split; [intros Hd; congruence|].
    intros other q Hsame Hne Hq Hid. rewrite Hrole in Hsame.
    destruct (Hpat _ _ Hsame Hq) as [Hsome' Hown'].
    rewrite Hid, Hsome in Hsome'. congruence.
  - destruct (Hdoc _ _ Hrole Hp) as (Hsome & dp & Hfind & Hd & Hu & Hown).
    split; [done|]. split; [intros Hd'; congruence|]. split; [by eauto|].
    intros other q Hsame Hne Hq Hid. rewrite Hrole in Hsame.
    destruct (Hdoc _ _ Hsame Hq) as (Hsome' & dq & _ & Hd' & Hu' & Hown').
    rewrite Hid, Hsome in Hsome'. injection Hsome' as Heq.
    rewrite <- Heq, Hown in Hown'. rewrite <- Hown' in Hd'.
    rewrite Hd in Hd'. injection Hd' as Hdd. congruence.
Qed.

Lemma getAppointments_scoped_witness :
  let p := populate (clinic "confirmed") (100, booking 1 10 "confirmed") in
  p ∈ listed (getAppointments (2, drWho) (clinic "confirmed")).1
  ∧ Appointment.doctorId (appointment p) = 10
  ∧ ∀ q, q ∈ listed (getAppointments (4, drNo) (clinic "confirmed")).1 →
         appointment_id q ≠ 100.
Proof.
  assert (populate (clinic "confirmed") (100, booking 1 10 "confirmed")
          ∈ listed (getAppointments (2, drWho) (clinic "confirmed")).1) as Hin
    by (vm_compute; apply list_elem_of_here).
  pose proof (getAppointments_scoped (2, drWho) (clinic "confirmed") _
                (or_intror eq_refl) Hin) as (_ & _ & _ & Hothers).
  split; [exact Hin|]. split; [reflexivity|].
  intros q Hq. apply (Hothers (4, drNo) q eq_refl); [discriminate|exact Hq].
Defined.

(** ** Rating aggregation in the document store *)

Lemma inject_Z_length_cons {A} (x : A) (l : list A) :
  (inject_Z (Z.of_nat (length (x :: l))) == 1 + inject_Z (Z.of_nat (length l)))%Q.
Proof.
  simpl length. rewrite Nat2Z.inj_succ, <- Z.add_1_l, inject_Z_plus. reflexivity.
Qed.

Lemma inject_Z_length_nonneg {A} (l : list A) :
  (0 <= inject_Z (Z.of_nat (length l)))%Q.
Proof. change 0%Q with (inject_Z 0). rewrite <- Zle_Qle. lia. Qed.

Lemma inject_Z_length_pos {A} (l : list A) :
  l ≠ [] → (0 < inject_Z (Z.of_nat (length l)))%Q.
Proof.
  intros Hne. destruct l as [|x l]; [done|].
  rewrite inject_Z_length_cons. pose proof (inject_Z_length_nonneg l). lra.
Qed.

(** Ratings between 1 and 5 sum to between N and 5 N. *)
Lemma sum_bounds (l : list Q) :
  (∀ x, x ∈ l → 1 <= x ∧ x <= 5)%Q →
  (inject_Z (Z.of_nat (length l)) <= foldr Qplus 0 l
   ∧ foldr Qplus 0 l <= 5 * inject_Z (Z.of_nat (length l)))%Q.
Proof.
  induction l as [|x l IH]; intros Hall.
  - change (inject_Z (Z.of_nat (length (@nil Q)))) with 0%Q. simpl. split; lra.
  - rewrite inject_Z_length_cons. simpl foldr.
    destruct (Hall x) as [Hlo Hhi]; [left|].
    destruct IH as [IHlo IHhi]; [intros y Hy; apply Hall; by right|].
    split; lra.
Qed.


(** The validators of the paths other than [rating] do not look at the
    rating. *)
Lemma DoctorProfile_validate_set_rating d r :
  DoctorProfile_validate d = true → (0 <= r)%Q → (r <= 5)%Q →
  DoctorProfile_validate (DoctorProfile.set_rating r d) = true.
Proof.
  unfold DoctorProfile_validate. simpl. rewrite !andb_true_iff.
  intros [[[Hrest _] _] Htotal] Hlo Hhi. apply Qle_bool_iff in Hlo, Hhi. done.
Qed.

(** For a profile loaded from the store, writing the document after an
    assignment to [rating] is the update of that path on the stored one. *)
Lemma DoctorProfile_save_loaded (coll : gmap ObjectId DoctorProfile.doc) id d r :
  coll !! id = Some d →
  <[id := DoctorProfile.set_rating r d]> coll
  = alter (DoctorProfile.set_rating r) id coll.
Proof.
  intros Hd. apply map_eq. intros j. destruct (decide (j = id)) as [->|Hne].
  - by rewrite lookup_insert_eq, lookup_alter_eq, Hd.
  - by rewrite lookup_insert_ne, lookup_alter_ne.
Qed.

Lemma DoctorProfile_save_cases (this : ObjectId * DoctorProfile.doc) st :
  (DoctorProfile_validate this.2 = true ∧ is_Some (doctorProfiles st !! this.1)
   ∧ DoctorProfile_save this st
     = (Ok tt, with_doctorProfiles (<[this.1 := this.2]>) st))
  ∨ ((DoctorProfile_validate this.2 = false ∨ doctorProfiles st !! this.1 = None)
     ∧ ∃ msg, DoctorProfile_save this st = (Throw msg, st)).
Proof.
  unfold DoctorProfile_save, bind, get_store.
  destruct (DoctorProfile_validate this.2); [|right; by eauto].
  destruct (doctorProfiles st !! this.1) as [d|] eqn:Hd; [left|right]; by eauto.
Qed.

Lemma updateRating_eq (this : ObjectId * DoctorProfile.doc) newRating st :
  updateRating this newRating st
  = match assignedRating
            (find (λ _ r, (Review.doctorId r =? this.1)%nat) (reviews st))
            newRating with
    | Some v =>
        match DoctorProfile_save (this.1, DoctorProfile.set_rating v this.2) st with
        | (Ok _, st') => (Ok (DoctorProfile.set_rating v this.2), st')
        | (Throw msg, st') => (Throw msg, st')
        end
    | None => (Throw "DoctorProfile validation failed", st)
    end.
Proof.
  unfold updateRating, bind, get_store, ret, throw.
  by destruct (assignedRating _ _).
Qed.

(** What [updateRating] does, by the outcome of the validators: it stores
    the profile with the assigned rating and returns, or throws and writes
    nothing. *)
Lemma updateRating_cases (this : ObjectId * DoctorProfile.doc) newRating st :
  (∃ v, assignedRating
          (find (λ _ r, (Review.doctorId r =? this.1)%nat) (reviews st)) newRating
        = Some v
        ∧ DoctorProfile_validate (DoctorProfile.set_rating v this.2) = true
        ∧ is_Some (doctorProfiles st !! this.1)
        ∧ updateRating this newRating st
          = (Ok (DoctorProfile.set_rating v this.2),
             with_doctorProfiles (<[this.1 := DoctorProfile.set_rating v this.2]>) st))
  ∨ (∃ msg, updateRating this newRating st = (Throw msg, st)).
Proof.
  rewrite updateRating_eq.
  destruct (assignedRating _ _) as [v|]; [|right; by eexists].
  destruct (DoctorProfile_save_cases (this.1, DoctorProfile.set_rating v this.2) st)
    as [(Hv & Hsome & ->)|(_ & msg & ->)].
  - left. exists v. done.
  - right. by exists msg.
Qed.

Lemma updateRating_run (this : ObjectId * DoctorProfile.doc) newRating st v :
  assignedRating (find (λ _ r, (Review.doctorId r =? this.1)%nat) (reviews st))
                 newRating = Some v →
  DoctorProfile_validate (DoctorProfile.set_rating v this.2) = true →
  is_Some (doctorProfiles st !! this.1) →
  updateRating this newRating st
  = (Ok (DoctorProfile.set_rating v this.2),
     with_doctorProfiles (<[this.1 := DoctorProfile.set_rating v this.2]>) st).
Proof.
  intros Hv Hvalid Hsome. rewrite updateRating_eq, Hv.
  destruct (DoctorProfile_save_cases (this.1, DoctorProfile.set_rating v this.2) st)
    as [(_ & _ & ->)|([Hno|Hno] & _)]; [done|..]; simpl in Hno.
  - congruence.
  - rewrite Hno in Hsome. by destruct Hsome.
Qed.

(** C8: when no review in the store references the doctor, [updateRating]
    takes the first branch: the value it assigns to the rating is the
    submitted value itself, with no mean computed, and for a stored profile
    that passes the validators of its schema and a value the schema accepts
    (0 to 5) that value is stored as the rating of the doctor. *)
Theorem updateRating_no_reviews (this : ObjectId * DoctorProfile.doc) newRating st :
  (∀ id r, reviews st !! id = Some r → Review.doctorId r ≠ this.1) →
  let rs := find (λ _ r, (Review.doctorId r =? this.1)%nat) (reviews st) in
  let res := updateRating this newRating st in
  rs = [] ∧ assignedRating rs newRating = Some newRating
  ∧ (doctorProfiles st !! this.1 = Some this.2 →
     DoctorProfile_validate this.2 = true →
     (0 <= newRating)%Q → (newRating <= 5)%Q →
     res.1 = Ok (DoctorProfile.set_rating newRating this.2)
     ∧ DoctorProfile.rating <$> doctorProfiles res.2 !! this.1 = Some newRating).
Proof.
  intros Hnone rs res. subst rs res.
  assert (find (λ _ r, (Review.doctorId r =? this.1)%nat) (reviews st) = [])
    as Hnil.
  { apply find_nil. intros id r Hr. apply Nat.eqb_neq. by eapply Hnone. }
  split; [exact Hnil|]. rewrite Hnil. split; [reflexivity|].
  intros Hstored Hvalid Hlo Hhi.
  rewrite (updateRating_run this newRating st newRating).
  - simpl. split; [done|]. by rewrite lookup_insert_eq.
  - by rewrite Hnil.
  - by apply DoctorProfile_validate_set_rating.
  - by eexists.
Qed.

Lemma updateRating_no_reviews_witness :
  let res := updateRating (10, profileOf 2 "L-10") (9 # 2) (clinic "completed") in
  assignedRating
    (find (λ _ r, (Review.doctorId r =? 10)%nat) (reviews (clinic "completed")))
    (9 # 2) = Some (9 # 2)%Q
  ∧ res.1 = Ok (DoctorProfile.set_rating (9 # 2) (profileOf 2 "L-10"))
  ∧ DoctorProfile.rating <$> doctorProfiles res.2 !! 10 = Some (9 # 2)%Q.
Proof.
  assert (∀ id r, reviews (clinic "completed") !! id = Some r →
                  Review.doctorId r ≠ 10) as Hnone.
  { intros id r Hr. vm_compute in Hr. discriminate Hr. }
  destruct (updateRating_no_reviews (10, profileOf 2 "L-10") (9 # 2)
              (clinic "completed") Hnone) as (_ & Hassigned & Hstored).
  split; [exact Hassigned|].
  apply Hstored; [reflexivity|reflexivity|vm_compute; discriminate..].
Defined.

(** ** Rating aggregation in the relational backend *)

Lemma Qmake_100 (z : Z) : (z # 100 == inject_Z z * (1 # 100))%Q.
Proof. unfold Qeq. simpl. lia. Qed.

(** Rounding a non-negative numeric to scale 2 gives a number with two
    decimals, at most half a hundredth away. *)
Lemma round_scale2_rounded (q : Q) :
  (0 <= q)%Q → rounded_to_2_decimals (Sql.round_scale2 q) q.
Proof.
  intros Hq. unfold Sql.round_scale2.
  apply Qle_bool_iff in Hq as Hb. rewrite Hb.
  pose proof (Qfloor_le (q * 100 + (1 # 2))) as Hle.
  pose proof (Qlt_floor (q * 100 + (1 # 2))) as Hlt.
  rewrite inject_Z_plus in Hlt. change (inject_Z 1) with 1%Q in Hlt.
  split; [by eexists|]. rewrite Qmake_100. split; lra.
Qed.

Lemma cast_decimal_3_2_rounded (q : Q) :
  (0 <= q)%Q → (q <= 5)%Q →
  ∃ v, Sql.cast_decimal_3_2 q = Some v ∧ rounded_to_2_decimals v q.
Proof.
  intros Hlo Hhi. pose proof (round_scale2_rounded q Hlo) as Hr.
  exists (Sql.round_scale2 q). split; [|exact Hr].
  destruct Hr as (_ & Hr1 & Hr2). unfold Sql.cast_decimal_3_2.
  destruct (Qle_bool 10 (Sql.round_scale2 q)) eqn:E1.
  { apply Qle_bool_iff in E1. lra. }
  destruct (Qle_bool (Sql.round_scale2 q) (-10)) eqn:E2.
  { apply Qle_bool_iff in E2. lra. }
  done.
Qed.

Lemma inject_Z_sum (l : list Z) :
  (inject_Z (foldr Z.add 0%Z l) == foldr Qplus 0 (inject_Z <$> l))%Q.
Proof.
  induction l as [|z l IH]; [reflexivity|].
  rewrite fmap_cons. simpl foldr. rewrite inject_Z_plus, IH. reflexivity.
Qed.

(** [AVG] over a non-empty list of ratings between 1 and 5 is their mean,
    itself between 1 and 5. *)
Lemma AVG_mean (l : list Z) :
  l ≠ [] → (∀ z, z ∈ l → 1 ≤ z ≤ 5)%Z →
  ∃ m, Sql.AVG l = Some m ∧ is_mean_of m (inject_Z <$> l)
       ∧ (0 <= m)%Q ∧ (m <= 5)%Q.
Proof.
  intros Hne Hall. destruct l as [|z l]; [done|].
  eexists. split; [reflexivity|].
  pose proof (inject_Z_length_pos (z :: l) Hne) as Hpos.
  destruct (sum_bounds (inject_Z <$> (z :: l))) as [Hlo Hhi].
  { intros x Hx. apply list_elem_of_fmap in Hx as (y & -> & Hy).
    destruct (Hall y Hy) as [H1 H5].
    change 1%Q with (inject_Z 1). change 5%Q with (inject_Z 5).
    rewrite <- !Zle_Qle. done. }
  rewrite length_fmap, <- inject_Z_sum in Hlo, Hhi.
  split; [|split].
  - unfold is_mean_of. rewrite length_fmap, <- inject_Z_sum.
    rewrite Qmult_comm. apply Qmult_div_r. lra.
  - apply Qle_shift_div_l; [exact Hpos|]. lra.
  - apply Qle_shift_div_r; [exact Hpos|]. lra.
Qed.

(** The value the trigger function assigns: the mean of the ratings of the
    doctor, rounded to two decimals. *)
Lemma avg_rating_decimal_rounded db doctor_id :
  Sql.ratings_of db doctor_id ≠ [] →
  (∀ z, z ∈ Sql.ratings_of db doctor_id → 1 ≤ z ≤ 5)%Z →
  ∃ v m, Sql.avg_rating_decimal db doctor_id = Some (Some v)
         ∧ is_mean_of m (inject_Z <$> Sql.ratings_of db doctor_id)
         ∧ rounded_to_2_decimals v m.
Proof.
  intros Hne Hall.
  destruct (AVG_mean _ Hne Hall) as (m & Havg & Hmean & Hlo & Hhi).
  destruct (cast_decimal_3_2_rounded m Hlo Hhi) as (v & Hcast & Hround).
  exists v, m. unfold Sql.avg_rating_decimal. rewrite Havg, Hcast. done.
Qed.

(** ** The rating after recomputation *)

(** The scenario of the specification, in the document store: the reviews
    4, 5, 3 give the rating 4, and with one more 5 the rating 4.25. *)
Example updateRating_4_5_3 :
  let res := updateRating (10, profileOf 2 "L-10") 3 (reviewed [4; 5; 3]%Q) in
  ∃ d, doctorProfiles res.2 !! 10 = Some d ∧ (DoctorProfile.rating d == 4)%Q.
Proof. eexists. split; [vm_compute; reflexivity|]. reflexivity. Qed.

Example updateRating_4_5_3_5 :
  let res := updateRating (10, profileOf 2 "L-10") 5 (reviewed [4; 5; 3; 5]%Q) in
  ∃ d, doctorProfiles res.2 !! 10 = Some d ∧ (DoctorProfile.rating d == 425 # 100)%Q.
Proof. eexists. split; [vm_compute; reflexivity|]. reflexivity. Qed.

(** The same scenario for the value the trigger function assigns. *)
Example avg_rating_decimal_4_5_3 :
  Sql.avg_rating_decimal (ratedDb [4; 5; 3]%Z) 0 = Some (Some (400 # 100)%Q).
Proof. vm_compute. reflexivity. Qed.

Example avg_rating_decimal_4_5_3_5 :
  Sql.avg_rating_decimal (ratedDb [4; 5; 3; 5]%Z) 0 = Some (Some (425 # 100)%Q).
Proof. vm_compute. reflexivity. Qed.

(** On the ratings 4, 5, 5 the trigger function assigns 4.67. *)
Example avg_rating_decimal_4_5_5 :
  Sql.avg_rating_decimal (ratedDb [4; 5; 5]%Z) 0 = Some (Some (467 # 100)%Q).
Proof. vm_compute. reflexivity. Qed.

(** C2, at a doctor with the reviews 4, 5, 5, whose mean 14/3 rounded to two
    decimal places is 4.67: in the document store [updateRating] stores the
    double nearest to 14/3 (4.666666666666667), a number with more than two
    decimal places.  And at the first review, rated 5, that a patient inserts
    in the relational backend: the subquery of the trigger function
    evaluates to 5.00, but its UPDATE runs as the patient and the policy of
    [doctor_profiles] keeps it from the row of the doctor, whose stored rating
    stays 0.00. *)
Theorem rating_after_recomputation_not_rounded_mean :
  (λ r, Review.rating r.2)
    <$> find (λ _ r, (Review.doctorId r =? 10)%nat) (reviews (reviewed [4; 5; 5]%Q))
  = [5; 5; 4]%Q
  ∧ (let res := updateRating (10, profileOf 2 "L-10") 5 (reviewed [4; 5; 5]%Q) in
     ∃ d, res.1 = Ok d ∧ doctorProfiles res.2 !! 10 = Some d
          ∧ DoctorProfile.rating d = (5254199565265579 # 1125899906842624)%Q
          ∧ ¬ two_decimals (DoctorProfile.rating d))
  ∧ is_mean_of (14 # 3) [4; 5; 5]%Q
  ∧ rounded_to_2_decimals (467 # 100) (14 # 3)
  ∧ Sql.run surgery Sql.emptyDb = Some surgeryDb
  ∧ Sql.ratings_of surgeryDb 0 = [5%Z]
  ∧ Sql.avg_rating_decimal surgeryDb 0 = Some (Some (500 # 100)%Q)
  ∧ Sql.d_rating <$> Sql.doctor_profiles surgeryDb !! 0 = Some (Some (0 # 100)%Q).
Proof.
  split; [vm_compute; reflexivity|].
  split.
  { eexists. split; [vm_compute; reflexivity|].
    split; [vm_compute; reflexivity|]. split; [reflexivity|].
    intros [z Hz]. unfold Qeq in Hz. simpl in Hz. lia. }
  split; [vm_compute; reflexivity|].
  split.
  { split; [by exists 467%Z|]. split; vm_compute; discriminate. }
  repeat split; vm_compute; reflexivity.
Qed.

(** ** Reviews in the relational backend *)

Lemma unique_in_None {A B} `{EqDecision B} (col : A → B) (tbl : gmap Sql.uuid A) v :
  Sql.unique_in col tbl None v = true →
  ∀ id r, tbl !! id = Some r → col r ≠ v.
Proof.
  unfold Sql.unique_in. rewrite forallb_forall. intros Hall id r Hr.
  specialize (Hall (id, r)). simpl in Hall.
  rewrite <- list_elem_of_In, elem_of_map_to_list in Hall.
  specialize (Hall Hr). by apply negb_true_iff, bool_decide_eq_false in Hall.
Qed.

(** The trigger function writes to [doctor_profiles] only. *)
Lemma update_doctor_rating_tables uid NEW db db' :
  Sql.update_doctor_rating uid NEW db = Some db' →
  Sql.reviews db' = Sql.reviews db ∧ Sql.appointments db' = Sql.appointments db.
Proof.
  unfold Sql.update_doctor_rating.
  destruct (Sql.doctor_profiles db !! _) as [d|]; [|by intros [= <-]].
  destruct (_ =? _)%nat; [|by intros [= <-]].
  destruct (Sql.avg_rating_decimal _ _) as [v|]; simpl; [|done].
  by intros [= <-].
Qed.

(** An accepted INSERT on [reviews]: the policy held, no review of the
    appointment existed, and the row went in under a new [id]. *)
Lemma insert_review_Some uid NEW db db' :
  Sql.insert_review uid NEW db = Some db' →
  Sql.review_insert_policy db uid NEW = true
  ∧ (∀ id r, Sql.reviews db !! id = Some r →
             Sql.r_appointment_id r ≠ Sql.r_appointment_id NEW)
  ∧ Sql.reviews db' = <[fresh (dom (Sql.reviews db)) := NEW]> (Sql.reviews db)
  ∧ Sql.appointments db' = Sql.appointments db.
Proof.
  unfold Sql.insert_review.
  destruct (Sql.review_insert_policy db uid NEW) eqn:Hpol; [|done].
  simpl. repeat (destruct (bool_decide _); simpl; [|done]).
  destruct (Sql.unique_in _ _ _ _) eqn:Huniq; simpl; [|done].
  destruct (_ <=? _)%Z; simpl; [|done].
  destruct (_ <=? _)%Z; simpl; [|done].
  intros Htrig. apply update_doctor_rating_tables in Htrig as [Hr Ha].
  simpl in Hr, Ha. split; [done|]. split; [|done].
  by apply unique_in_None.
Qed.

(** A review goes in only through an accepted INSERT on [reviews]. *)
Lemma exec_reviews s db db' :
  Sql.exec s db = Some db' →
  Sql.reviews db' = Sql.reviews db
  ∨ ∃ uid NEW, s = Sql.InsertReview uid NEW.
Proof.
  destruct s as [uid id NEW|uid id NEW|uid NEW|uid id NEW|uid NEW|uid id NEW|uid NEW];
    simpl; [| | | | | |by eauto]; intros Hexec; left.
  - unfold Sql.insert_profile in Hexec.
    destruct (_ && _) in Hexec; [|done]. by injection Hexec as <-.
  - unfold Sql.update_profile in Hexec.
    destruct (Sql.profiles db !! id); [|done].
    destruct (_ && _) in Hexec; [|done]. by injection Hexec as <-.
  - unfold Sql.insert_doctor_profile in Hexec.
    destruct (_ && _) in Hexec; [|done].
    destruct (Sql.doctor_profiles_typed NEW); [|done]. by injection Hexec as <-.
  - unfold Sql.update_doctor_profile in Hexec.
    destruct (Sql.doctor_profiles db !! id); [|done].
    destruct (_ && _) in Hexec; [|done].
    destruct (Sql.doctor_profiles_typed NEW); [|done]. by injection Hexec as <-.
  - unfold Sql.insert_appointment in Hexec.
    destruct (_ && _) in Hexec; [|done]. by injection Hexec as <-.
  - unfold Sql.update_appointment in Hexec.
    destruct (Sql.appointments db !! id); [|done].
    destruct (_ && _) in Hexec; [|done]. by injection Hexec as <-.
Qed.

Lemma step_one_review_per_appointment db db' :
  Sql.step db db' →
  Sql.one_review_per_appointment db → Sql.one_review_per_appointment db'.
Proof.
  intros [s Hexec] Hinv.
  destruct (exec_reviews _ _ _ Hexec) as [Hsame|(uid & NEW & ->)].
  - unfold Sql.one_review_per_appointment. rewrite Hsame. exact Hinv.
  - simpl in Hexec. apply insert_review_Some in Hexec as (_ & Huniq & Hnew & _).
    unfold Sql.one_review_per_appointment. rewrite Hnew.
    intros id1 id2 r1 r2 H1 H2 Heq.
    apply lookup_insert_Some in H1 as [[<- <-]|[Hne1 H1]];
      apply lookup_insert_Some in H2 as [[<- <-]|[Hne2 H2]].
    + done.
    + by destruct (Huniq _ _ H2).
    + by destruct (Huniq _ _ H1).
    + by eapply Hinv.
Qed.

Lemma reachable_one_review_per_appointment db :
  Sql.reachable db → Sql.one_review_per_appointment db.
Proof.
  unfold Sql.reachable. revert db. apply rtc_ind_r.
  - intros id1 id2 r1 r2 H1. simpl in H1. by rewrite lookup_empty in H1.
  - intros db db' _ Hstep Hinv. by eapply step_one_review_per_appointment.
Qed.

Lemma run_reachable l db db' :
  Sql.run l db = Some db' → rtc Sql.step db db'.
Proof.
  revert db. induction l as [|s l IH]; intros db; simpl.
  - intros [= <-]. apply rtc_refl.
  - destruct (Sql.exec s db) as [db1|] eqn:Hexec; simpl; [|done].
    intros Hrun. eapply rtc_l; [by exists s|]. by apply IH.
Qed.

(** The scenario runs: every statement is accepted, and the review is in. *)
Example surgery_runs :
  Sql.run surgery Sql.emptyDb = Some surgeryDb
  ∧ size (Sql.reviews surgeryDb) = 1
  ∧ Sql.a_status <$> Sql.appointments surgeryDb !! 0 = Some "completed".
Proof. vm_compute. done. Qed.

(** A second review of the reviewed appointment is refused, and so is a
    review of an appointment that is only confirmed. *)
Example second_review_refused :
  Sql.insert_review 1 (Sql.mk_review 0 1 0 4 None) surgeryDb = None
  ∧ Sql.run (take 5 surgery ++ [Sql.InsertReview 1 (Sql.mk_review 0 1 0 5 None)])
            Sql.emptyDb = None.
Proof. vm_compute. done. Qed.

(** C6: in every database state reached from the empty tables by accepted
    statements, no two reviews have the same appointment; an INSERT on
    [reviews] is accepted only for an existing appointment whose status is
    "completed", and is refused for any appointment with another status. *)
Theorem reviews_one_per_completed_appointment db :
  Sql.reachable db →
  Sql.one_review_per_appointment db
  ∧ (∀ uid NEW db', Sql.insert_review uid NEW db = Some db' →
       ∃ a, Sql.appointments db !! Sql.r_appointment_id NEW = Some a
            ∧ Sql.a_status a = "completed")
  ∧ (∀ uid NEW a, Sql.appointments db !! Sql.r_appointment_id NEW = Some a →
       Sql.a_status a ≠ "completed" → Sql.insert_review uid NEW db = None).
Proof.
  intros Hreach. split; [by apply reachable_one_review_per_appointment|]. split.
  - intros uid NEW db' Hins. apply insert_review_Some in Hins as (Hpol & _).
    unfold Sql.review_insert_policy in Hpol.
    destruct (Sql.appointments db !! Sql.r_appointment_id NEW) as [a|];
      [|by rewrite andb_false_r in Hpol].
    exists a. split; [done|].
    apply andb_true_iff in Hpol as [_ Hpol].
    apply andb_true_iff in Hpol as [_ Hpol]. by apply String.eqb_eq.
  - intros uid NEW a Ha Hst. unfold Sql.insert_review, Sql.review_insert_policy.
    rewrite Ha. apply String.eqb_neq in Hst. rewrite Hst.
    by rewrite !andb_false_r.
Qed.

Lemma reviews_one_per_completed_appointment_witness :
  Sql.reachable surgeryDb
  ∧ Sql.one_review_per_appointment surgeryDb
  ∧ (∀ uid NEW db', Sql.insert_review uid NEW surgeryDb = Some db' →
       ∃ a, Sql.appointments surgeryDb !! Sql.r_appointment_id NEW = Some a
            ∧ Sql.a_status a = "completed")
  ∧ (∀ uid NEW a, Sql.appointments surgeryDb !! Sql.r_appointment_id NEW = Some a →
       Sql.a_status a ≠ "completed" → Sql.insert_review uid NEW surgeryDb = None).
Proof.
  assert (Sql.reachable surgeryDb) as Hreach.
  { apply (run_reachable surgery). vm_compute. reflexivity. }
  split; [exact Hreach|].
  exact (reviews_one_per_completed_appointment surgeryDb Hreach).
Defined.

(** ** Visibility of appointments in the relational backend *)

(** A row of [appointments] that a user can select is one the user booked or
    one that names a doctor profile of that user. *)
Lemma select_appointments_scoped uid db id a :
  (id, a) ∈ Sql.select_appointments uid db ↔
  Sql.appointments db !! id = Some a
  ∧ (Sql.a_patient_id a = uid
     ∨ ∃ d, Sql.doctor_profiles db !! Sql.a_doctor_id a = Some d
            ∧ Sql.d_user_id d = uid).
Proof.
  unfold Sql.select_appointments.
  rewrite list_elem_of_In, filter_In, <- list_elem_of_In, elem_of_map_to_list.
  simpl. unfold Sql.appointment_policy, Sql.own_doctor_profile.
  rewrite orb_true_iff, Nat.eqb_eq.
  destruct (Sql.doctor_profiles db !! Sql.a_doctor_id a) as [d|].
  - rewrite Nat.eqb_eq. split.
    + intros [Ha [Hp|Hd]]; (split; [done|]); [by left|right; by exists d].
    + intros [Ha [Hp|(d' & [= <-] & Hd)]]; (split; [done|]); [by left|by right].
  - split.
    + intros [Ha [Hp|Hd]]; [|done]. split; [done|by left].
    + intros [Ha [Hp|(d' & [=] & _)]]. split; [done|by left].
Qed.

(** * Further properties of the code *)

(** ** The method [complete] *)



(** X2: After [complete] went through on a stored appointment, the document
    that a query then loads under the same [_id] is completed, and [complete]
    on it throws and writes nothing: no increment follows. *)
Theorem complete_then_refused (this : ObjectId * Appointment.doc) st :
  appointments st !! this.1 = Some this.2 →
  Appointment_validate this.2 = true →
  Appointment.status this.2 = "confirmed" →
  let st' := (complete this st).2 in
  ∃ this', findById this.1 (appointments st') = Some this'
           ∧ Appointment.status this' = "completed"
           ∧ complete (this.1, this') st'
             = (Throw "Only confirmed appointments can be completed", st').
Proof.
  intros Hstored Hvalid Hst st'. subst st'.
  rewrite (complete_confirmed _ _ Hst (mk_is_Some _ _ Hstored) Hvalid). simpl.
  eexists. unfold findById. split; [by rewrite lookup_insert_eq|].
  split; [done|]. by apply complete_requires_confirmed.
Qed.

Lemma complete_then_refused_witness :
  let st' := (complete (100, booking 1 10 "confirmed") (clinic "confirmed")).2 in
  ∃ this', findById 100 (appointments st') = Some this'
           ∧ Appointment.status this' = "completed"
           ∧ complete (100, this') st'
             = (Throw "Only confirmed appointments can be completed", st').
Proof.
  exact (complete_then_refused (100, booking 1 10 "confirmed") (clinic "confirmed")
           eq_refl eq_refl eq_refl).
Defined.

(** X3: When the doctor reference of a stored, valid, confirmed appointment
    names no doctor profile, [complete] still stores "completed" and returns
    normally: the increment finds no document and no doctor profile
    changes. *)
Theorem complete_without_doctor_profile (this : ObjectId * Appointment.doc) st :
  appointments st !! this.1 = Some this.2 →
  Appointment_validate this.2 = true →
  Appointment.status this.2 = "confirmed" →
  doctorProfiles st !! Appointment.doctorId this.2 = None →
  let res := complete this st in
  res.1 = Ok (Appointment.set_status "completed" this.2)
  ∧ appointments res.2 = <[this.1 := Appointment.set_status "completed" this.2]>
                           (appointments st)
  ∧ doctorProfiles res.2 = doctorProfiles st.
Proof.
  intros Hstored Hvalid Hst Hd res. subst res.
  rewrite (complete_confirmed _ _ Hst (mk_is_Some _ _ Hstored) Hvalid). simpl.
  split; [done|]. split; [done|]. by apply alter_id'.
Qed.

Lemma complete_without_doctor_profile_witness :
  let st := with_appointments (<[7 := booking 1 55 "confirmed"]>) (clinic "pending") in
  let res := complete (7, booking 1 55 "confirmed") st in
  res.1 = Ok (booking 1 55 "completed")
  ∧ doctorProfiles res.2 = doctorProfiles st.
Proof.
  assert (appointments
            (with_appointments (<[7 := booking 1 55 "confirmed"]>) (clinic "pending"))
            !! 7 = Some (booking 1 55 "confirmed")) as Hstored
    by (vm_compute; reflexivity).
  destruct (complete_without_doctor_profile (7, booking 1 55 "confirmed")
              (with_appointments (<[7 := booking 1 55 "confirmed"]>)
                                 (clinic "pending")) Hstored eq_refl eq_refl eq_refl)
    as (Hres & _ & Hdoc).
  split; [exact Hres|exact Hdoc].
Defined.

(** ** The method [updateRating] *)


(** X5: Where reviews of the doctor exist, [updateRating] on a stored profile
    is idempotent: when a run returns, a second run on the profile as the
    first left it, with any submitted value, returns with the same profile
    and leaves the store as the first run left it. *)
Theorem updateRating_idempotent (this : ObjectId * DoctorProfile.doc) r1 r2 st
    this' st' :
  doctorProfiles st !! this.1 = Some this.2 →
  find (λ _ r, (Review.doctorId r =? this.1)%nat) (reviews st) ≠ [] →
  updateRating this r1 st = (Ok this', st') →
  doctorProfiles st' !! this.1 = Some this'
  ∧ updateRating (this.1, this') r2 st' = (Ok this', st').
Proof.
  intros _ Hne Hrun.
  destruct (updateRating_cases this r1 st)
    as [(v & Hv & Hvalid & Hsome & Heq)|(msg & Heq)];
    rewrite Heq in Hrun; [|done].
  injection Hrun as <- <-.
  assert (assignedRating
            (find (λ _ r, (Review.doctorId r =? this.1)%nat) (reviews st)) r2
          = Some v) as Hv2.
  { rewrite <- Hv. unfold assignedRating.
    by destruct (find _ (reviews st)). }
  split; [simpl; by rewrite lookup_insert_eq|].
  rewrite (updateRating_run _ r2 _ v); cbn [fst snd]; [|done|done|].
  - f_equal. unfold with_doctorProfiles. simpl. by rewrite insert_insert_eq.
  - simpl. rewrite lookup_insert_eq. by eexists.
Qed.

Lemma updateRating_idempotent_witness :
  let run1 := updateRating (10, profileOf 2 "L-10") 1 (reviewed [4; 5; 5]%Q) in
  ∃ this', run1.1 = Ok this'
           ∧ updateRating (10, this') 3 run1.2 = (Ok this', run1.2).
Proof.
  eexists. split; [vm_compute; reflexivity|].
  apply (updateRating_idempotent (10, profileOf 2 "L-10") 1 3
           (reviewed [4; 5; 5]%Q)).
  - vm_compute. reflexivity.
  - vm_compute. discriminate.
  - vm_compute. reflexivity.
Defined.

(** ** Booking, continued *)

(** What [Appointment.create] accepts, read back from the document. *)
Lemma Appointment_cast_Some patientId body status a :
  Appointment_cast patientId body status = Some a →
  Appointment.patientId a = patientId ∧ Appointment.status a = status
  ∧ in_doctorId body = Some (Appointment.doctorId a)
  ∧ matches_HHmm (Appointment.appointmentTime a) = true
  ∧ Appointment.reason a ≠ ""
  ∧ Appointment.notes a = None ∧ Appointment.videoRoomId a = None.
Proof.
  unfold Appointment_cast.
  destruct (in_doctorId body) as [doctorId|]; [|done].
  destruct (in_appointmentDate body) as [date|]; [|done].
  destruct (in_appointmentTime body) as [time|]; [|done].
  destruct (in_reason body) as [reason|]; [|done].
  cbv zeta. destruct (Appointment_validate _) eqn:Hvalid; [|done].
  intros [= <-]. unfold Appointment_validate in Hvalid. simpl in Hvalid.
  rewrite !andb_true_iff in Hvalid. destruct Hvalid as [[[[_ _] Htime] _] Hreason].
  apply negb_true_iff, String.eqb_neq in Hreason. done.
Qed.

(** X6: The booking route answers 201 or 500 only, keeps every stored
    appointment, and whatever it adds is an appointment of the caller, with
    status "pending", a time in HH:mm and a reason that is not blank: the body
    cannot book for another patient nor choose the status. *)
Theorem postAppointment_books_for_caller (user : ObjectId * User.doc) body st :
  let res := postAppointment user body st in
  (statusCode res.1 = 201 ∨ statusCode res.1 = 500)
  ∧ (∀ id a, appointments st !! id = Some a → appointments res.2 !! id = Some a)
  ∧ (∀ id a, appointments res.2 !! id = Some a →
       appointments st !! id = Some a
       ∨ (appointments st !! id = None
          ∧ Appointment.patientId a = user.1 ∧ Appointment.status a = "pending"
          ∧ matches_HHmm (Appointment.appointmentTime a) = true
          ∧ Appointment.reason a ≠ "")).
Proof.
  intros res. subst res.
  destruct (Appointment_cast user.1 body "pending") as [a0|] eqn:Hcast.
  2:{ rewrite (postAppointment_invalid _ _ _ Hcast). simpl. eauto. }
  apply Appointment_cast_Some in Hcast as Hshape.
  destruct Hshape as (Hpat & Hstat & _ & Htime & Hreason & _).
  assert (appointments st !! fresh (dom (appointments st)) = None) as Hfresh
    by apply not_elem_of_dom, is_fresh.
  assert (Hin :
            (∀ id a, appointments st !! id = Some a →
                     <[fresh (dom (appointments st)) := a0]> (appointments st) !! id
                     = Some a)
            ∧ (∀ id a, <[fresh (dom (appointments st)) := a0]> (appointments st) !! id
                       = Some a →
                 appointments st !! id = Some a
                 ∨ (appointments st !! id = None
                    ∧ Appointment.patientId a = user.1
                    ∧ Appointment.status a = "pending"
                    ∧ matches_HHmm (Appointment.appointmentTime a) = true
                    ∧ Appointment.reason a ≠ ""))).
  { split.
    - intros id a Ha. rewrite lookup_insert_ne; [done|]. congruence.
    - intros id a Ha. apply lookup_insert_Some in Ha as [[<- <-]|[_ Ha]]; eauto 10. }
  unfold postAppointment, handler. unfold bind at 1. unfold Appointment_create.
  rewrite Hcast.
  unfold bind, get_store, modify_store, ret, DoctorProfile_findById_populated,
    findById, Notification_create, throw. simpl.
  destruct (in_doctorId body ≫= _) as [d|]; simpl.
  - destruct (users st !! DoctorProfile.userId d) as [u|]; simpl.
    + split; [by left|]. exact Hin.
    + split; [by right|]. exact Hin.
  - split; [by left|]. exact Hin.
Qed.

(** X7: A valid booking (a date of JavaScript, a time in HH:mm, a reason that
    is not blank) with an existing doctor whose user exists: 201, the
    appointment is stored, and exactly one notification is added, addressed
    to the user of the doctor and naming the patient and the new
    appointment. *)
Theorem postAppointment_notifies_doctor (user : ObjectId * User.doc)
    doctorId date time reason st d u :
  doctorProfiles st !! doctorId = Some d →
  users st !! DoctorProfile.userId d = Some u →
  is_Date date = true → matches_HHmm time = true → trim reason ≠ "" →
  let body := mkAppointmentInput (Some doctorId) (Some date) (Some time)
                                 (Some reason) in
  let a := Appointment.mk user.1 doctorId date time "pending" (trim reason)
                          None None in
  let id := fresh (dom (appointments st)) in
  let res := postAppointment user body st in
  res.1 = succeed 201 (id, a)
  ∧ appointments res.2 = <[id := a]> (appointments st)
  ∧ notifications res.2
    = <[fresh (dom (notifications st)) :=
          Notification.mk (DoctorProfile.userId d) "New Appointment Request"
            (User.fullName user.2 +:+ " has requested an appointment")
            "appointment" false (Some id)]> (notifications st)
  ∧ size (notifications res.2) = S (size (notifications st)).
Proof.
  intros Hd Hu Hdate Htime Hreason body a id res. subst res body.
  unfold postAppointment, handler. unfold bind at 1. unfold Appointment_create.
  rewrite (Appointment_cast_valid _ _ _ _ _ Hdate Htime Hreason).
  unfold bind, get_store, modify_store, ret, DoctorProfile_findById_populated,
    findById, Notification_create. simpl. rewrite Hd. simpl. rewrite Hu. simpl.
  repeat split. apply map_size_insert_None, not_elem_of_dom, is_fresh.
Qed.

Lemma postAppointment_notifies_doctor_witness :
  let res := postAppointment (3, bob)
               (mkAppointmentInput (Some 10) (Some 1700000000000%Z)
                                   (Some "7:45") (Some "cough"))
               (clinic "pending") in
  statusCode res.1 = 201
  ∧ (λ n, (Notification.userId n.2, Notification.relatedId n.2))
      <$> map_to_list (notifications res.2) = [(2, Some 101)].
Proof.
  assert (trim "cough" ≠ "") as Hreason by (vm_compute; discriminate).
  destruct (postAppointment_notifies_doctor (3, bob) 10 1700000000000 "7:45"
              "cough" (clinic "pending") (profileOf 2 "L-10") drWho
              eq_refl eq_refl eq_refl eq_refl Hreason) as (Hres & _ & Hnot & _).
  split; [exact (f_equal statusCode Hres)|].
  etransitivity;
    [exact (f_equal
              (λ m, (λ n, (Notification.userId n.2, Notification.relatedId n.2))
                    <$> map_to_list m) Hnot)|].
  vm_compute. reflexivity.
Defined.

(** X8: A valid booking (a date of JavaScript, a time in HH:mm, a reason that
    is not blank) with a doctor profile whose user document is gone: the
    handler throws after the appointment is written, so the answer is 500
    although the appointment is stored; no notification is added. *)
Theorem postAppointment_doctor_without_user (user : ObjectId * User.doc)
    doctorId date time reason st d :
  doctorProfiles st !! doctorId = Some d →
  users st !! DoctorProfile.userId d = None →
  is_Date date = true → matches_HHmm time = true → trim reason ≠ "" →
  let body := mkAppointmentInput (Some doctorId) (Some date) (Some time)
                                 (Some reason) in
  let a := Appointment.mk user.1 doctorId date time "pending" (trim reason)
                          None None in
  let res := postAppointment user body st in
  statusCode res.1 = 500 ∧ success res.1 = false
  ∧ appointments res.2 = <[fresh (dom (appointments st)) := a]> (appointments st)
  ∧ notifications res.2 = notifications st.
Proof.
  intros Hd Hu Hdate Htime Hreason body a res. subst res body.
  unfold postAppointment, handler. unfold bind at 1. unfold Appointment_create.
  rewrite (Appointment_cast_valid _ _ _ _ _ Hdate Htime Hreason).
  unfold bind, get_store, modify_store, ret, DoctorProfile_findById_populated,
    findById, Notification_create. simpl. rewrite Hd. simpl. rewrite Hu. simpl.
  done.
Qed.

Lemma postAppointment_doctor_without_user_witness :
  let st := with_doctorProfiles (<[12 := profileOf 9 "L-12"]>) (clinic "pending") in
  let res := postAppointment (3, bob)
               (mkAppointmentInput (Some 12) (Some 1700000000000%Z)
                                   (Some "23:59") (Some "cough")) st in
  statusCode res.1 = 500
  ∧ Appointment.patientId <$> appointments res.2 !! 101 = Some 3
  ∧ notifications res.2 = notifications st.
Proof.
  assert (trim "cough" ≠ "") as Hreason by (vm_compute; discriminate).
  assert (doctorProfiles
            (with_doctorProfiles (<[12 := profileOf 9 "L-12"]>) (clinic "pending"))
            !! 12 = Some (profileOf 9 "L-12")) as Hd by (vm_compute; reflexivity).
  assert (users
            (with_doctorProfiles (<[12 := profileOf 9 "L-12"]>) (clinic "pending"))
            !! DoctorProfile.userId (profileOf 9 "L-12") = None) as Hu
    by (vm_compute; reflexivity).
  destruct (postAppointment_doctor_without_user (3, bob) 12 1700000000000 "23:59"
              "cough"
              (with_doctorProfiles (<[12 := profileOf 9 "L-12"]>) (clinic "pending"))
              (profileOf 9 "L-12") Hd Hu eq_refl eq_refl Hreason)
    as (Hcode & _ & Happ & Hnot).
  split; [exact Hcode|]. split; [|exact Hnot].
  etransitivity;
    [exact (f_equal (λ m, Appointment.patientId <$> m !! 101) Happ)|].
  vm_compute. reflexivity.
Defined.

(** ** Listing, continued *)

Lemma getAppointments_other user st :
  User.role user.2 ≠ "patient" → User.role user.2 ≠ "doctor" →
  getAppointments user st
  = (let l := populate st <$>
                merge_sort appointment_le
                  (find (λ _ a, matches_query (mkQuery None None) a) (appointments st)) in
     succeed 200 (length l, l), st).
Proof.
  intros Hp Hd. unfold getAppointments, handler.
  apply String.eqb_neq in Hp, Hd. rewrite Hp, Hd. done.
Qed.

Lemma populate_elem_of_find query st id a :
  appointments st !! id = Some a → matches_query query a = true →
  populate st (id, a) ∈
    populate st <$>
      merge_sort appointment_le
        (find (λ _ a, matches_query query a) (appointments st)).
Proof.
  intros Ha Hq. apply list_elem_of_fmap_2. rewrite merge_sort_Permutation.
  by apply elem_of_find.
Qed.

(** X9: The listing leaves nothing out: a stored appointment is listed for the
    patient who booked it, for the doctor whose profile it names, and for any
    caller who is neither patient nor doctor (an admin sees every
    appointment). *)
Theorem getAppointments_complete (user : ObjectId * User.doc) st id a :
  appointments st !! id = Some a →
  (User.role user.2 = "patient" ∧ Appointment.patientId a = user.1)
  ∨ (User.role user.2 = "doctor"
     ∧ ∃ dp, findOne (λ _ d, (DoctorProfile.userId d =? user.1)%nat)
                     (doctorProfiles st) = Some dp
             ∧ Appointment.doctorId a = dp.1)
  ∨ (User.role user.2 ≠ "patient" ∧ User.role user.2 ≠ "doctor") →
  statusCode (getAppointments user st).1 = 200
  ∧ populate st (id, a) ∈ listed (getAppointments user st).1.
Proof.
  intros Ha [[Hrole Hown]|[(Hrole & dp & Hfind & Hown)|[Hp Hd]]].
  - rewrite (getAppointments_patient _ _ Hrole).
    split; [unfold getAppointments, handler; by rewrite Hrole|].
    apply populate_elem_of_find; [done|]. unfold matches_query. simpl.
    rewrite andb_true_r. by apply Nat.eqb_eq.
  - unfold getAppointments, handler. rewrite Hrole. simpl.
    unfold bind at 1. unfold bind at 1.
    unfold DoctorProfile_findOne_userId, bind, get_store, ret. simpl.
    rewrite Hfind. simpl. split; [done|].
    apply populate_elem_of_find; [done|]. unfold matches_query. simpl.
    by apply Nat.eqb_eq.
  - rewrite (getAppointments_other _ _ Hp Hd). simpl. split; [done|].
    by apply populate_elem_of_find.
Qed.

Lemma getAppointments_complete_witness :
  populate (clinic "pending") (100, booking 1 10 "pending")
  ∈ listed (getAppointments (1, alice) (clinic "pending")).1
  ∧ populate (clinic "pending") (100, booking 1 10 "pending")
    ∈ listed (getAppointments (7, User.mk "root@example.com" "pw" "Root" "admin")
                              (clinic "pending")).1.
Proof.
  split.
  - apply (getAppointments_complete (1, alice) (clinic "pending") 100
             (booking 1 10 "pending") eq_refl).
    left. split; reflexivity.
  - apply (getAppointments_complete
             (7, User.mk "root@example.com" "pw" "Root" "admin")
             (clinic "pending") 100 (booking 1 10 "pending") eq_refl).
    right. right. split; discriminate.
Defined.

Lemma appointment_le_total : Total appointment_le.
Proof.
  intros a b. unfold appointment_le, appointment_leb.
  destruct (Z.lt_trichotomy (Appointment.appointmentDate a.2)
                            (Appointment.appointmentDate b.2)) as [Hlt|[Heq|Hgt]].
  - left. apply Z.ltb_lt in Hlt. by rewrite Hlt.
  - rewrite Heq, Z.ltb_irrefl, Z.eqb_refl. simpl.
    destruct (String.leb_total (Appointment.appointmentTime a.2)
                               (Appointment.appointmentTime b.2)); auto.
  - right. apply Z.ltb_lt in Hgt. by rewrite Hgt.
Qed.

Lemma Sorted_lookup_S {A} (R : relation A) (l : list A) i x y :
  Sorted R l → l !! i = Some x → l !! S i = Some y → R x y.
Proof.
  intros Hsorted. revert i. induction Hsorted as [|a l _ IH Hhd]; intros i Hx Hy.
  - done.
  - destruct i as [|i]; simpl in Hx, Hy.
    + injection Hx as ->. destruct Hhd as [|b l Hab]; [done|].
      simpl in Hy. by injection Hy as ->.
    + by eapply IH.
Qed.

(** X10: The listing is in ascending order of date and, within a date, of the
    time as a string: of two appointments listed one after the other, the
    first has the earlier date, or the same date and a time that does not
    come after that of the second in the order of strings. *)
Theorem getAppointments_sorted (user : ObjectId * User.doc) st i p q :
  listed (getAppointments user st).1 !! i = Some p →
  listed (getAppointments user st).1 !! S i = Some q →
  (Appointment.appointmentDate (appointment p)
   < Appointment.appointmentDate (appointment q))%Z
  ∨ (Appointment.appointmentDate (appointment p)
     = Appointment.appointmentDate (appointment q)
     ∧ String.leb (Appointment.appointmentTime (appointment p))
                  (Appointment.appointmentTime (appointment q)) = true).
Proof.
  assert (Hsorted : ∀ query,
            Sorted (λ p q, appointment_le (appointment_id p, appointment p)
                                          (appointment_id q, appointment q))
              (populate st <$>
                 merge_sort appointment_le
                   (find (λ _ a, matches_query query a) (appointments st)))).
  { intros query. eapply Sorted_fmap;
      [|apply (@Sorted_merge_sort _ appointment_le _ appointment_le_total)].
    intros [j x] [k y] Hle. exact Hle. }
  assert (Sorted (λ p q, appointment_le (appointment_id p, appointment p)
                                        (appointment_id q, appointment q))
                 (listed (getAppointments user st).1)) as Hlisted.
  { unfold getAppointments, handler.
    destruct (String.eqb (User.role user.2) "patient"); [apply Hsorted|].
    destruct (String.eqb (User.role user.2) "doctor"); [|apply Hsorted].
    unfold bind at 1. unfold bind at 1.
    unfold DoctorProfile_findOne_userId, bind, get_store, ret. simpl.
    destruct (findOne _ _); simpl; [apply Hsorted|constructor]. }
  intros Hp Hq. pose proof (Sorted_lookup_S _ _ _ _ _ Hlisted Hp Hq) as Hle.
  unfold appointment_le, appointment_leb in Hle. simpl in Hle.
  apply orb_true_iff in Hle as [Hlt|Heq].
  - left. by apply Z.ltb_lt.
  - right. apply andb_true_iff in Heq as [Heq Htime].
    by apply Z.eqb_eq in Heq.
Qed.

Lemma getAppointments_sorted_witness :
  appointment_id <$> listed (getAppointments (1, alice) busyClinic).1
  = [102; 101; 100]
  ∧ ((1700000000000 < 1700000000000)%Z
     ∨ ((1700000000000 = 1700000000000)%Z ∧ String.leb "08:15" "09:30" = true)).
Proof.
  split; [vm_compute; reflexivity|].
  apply (getAppointments_sorted (1, alice) busyClinic 1
           (populate busyClinic
              (101, Appointment.mk 1 10 1700000000000 "08:15" "pending" "x-ray"
                                   None None))
           (populate busyClinic (100, booking 1 10 "pending")));
    vm_compute; reflexivity.
Defined.

(** ** The status route, continued *)

(** X11: The status route writes to nothing but the status of the addressed
    appointment and the notifications: users, doctor profiles and reviews
    stay as they are, no other appointment changes, no appointment is
    created, and the addressed one keeps its patient, doctor, date, time,
    reason, notes and video room. *)
Theorem patchStatus_changes_status_only (user : ObjectId * User.doc) id status st :
  let st' := (patchStatus user id status st).2 in
  users st' = users st ∧ doctorProfiles st' = doctorProfiles st
  ∧ reviews st' = reviews st
  ∧ (∀ j, j ≠ id → appointments st' !! j = appointments st !! j)
  ∧ (∀ a', appointments st' !! id = Some a' →
       ∃ a, appointments st !! id = Some a
            ∧ Appointment.set_status (Appointment.status a) a' = a).
Proof.
  intros st'. subst st'.
  destruct (patchStatus_cases user id status st)
    as [[_ ->]|[(_ & _ & ->)|[(a & _ & _ & _ & ->)|[(a & _ & _ & _ & _ & ->)
       |(a & _ & Ha & _ & _ & ->)]]]];
    simpl; repeat split; try done.
  - intros a' Ha'. exists a'. split; [done|]. by destruct a'.
  - intros a' Ha'. exists a'. split; [done|]. by destruct a'.
  - intros a' Ha'. exists a'. split; [done|]. by destruct a'.
  - intros a' Ha'. exists a'. split; [done|]. by destruct a'.
  - intros j Hne. by rewrite lookup_insert_ne.
  - intros a' Ha'. rewrite lookup_insert_eq in Ha'. injection Ha' as <-.
    exists a. split; [done|]. by destruct a.
Qed.

Lemma notAuthorized_frame user a a' st st' :
  doctorProfiles st' = doctorProfiles st →
  Appointment.doctorId a' = Appointment.doctorId a →
  notAuthorized user a st = (Ok false, st) →
  notAuthorized user a' st' = (Ok false, st').
Proof.
  unfold notAuthorized. intros Hd Ha.
  destruct (String.eqb _ _); [|done].
  unfold DoctorProfile_findOne_userId, bind, get_store, ret. simpl.
  rewrite Hd, Ha. intros [= H]. by rewrite H.
Qed.

(** X12: On a stored appointment that passes the validators of its schema,
    two status updates in a row by an authorized caller both succeed whatever
    the statuses: the second status is the one stored (no transition is
    refused) and each update adds its own notification (no deduplication). *)
Theorem patchStatus_twice (user : ObjectId * User.doc) id s1 s2 st a :
  s1 ∈ ["confirmed"; "cancelled"; "completed"; "rescheduled"] →
  s2 ∈ ["confirmed"; "cancelled"; "completed"; "rescheduled"] →
  appointments st !! id = Some a →
  Appointment_validate a = true →
  notAuthorized user a st = (Ok false, st) →
  let st1 := (patchStatus user id s1 st).2 in
  let res := patchStatus user id s2 st1 in
  statusCode res.1 = 200
  ∧ appointments res.2 !! id = Some (Appointment.set_status s2 a)
  ∧ size (notifications res.2) = S (S (size (notifications st))).
Proof.
  fold accepted_statuses. intros H1 H2 Ha Hvalid Hb st1 res. subst res st1.
  pose proof (Appointment_validate_set_status a s1 Hvalid (accepted_in_enum _ H1))
    as Hv1.
  rewrite (patchStatus_written _ _ _ _ _ H1 Ha Hb Hv1). cbn [snd].
  assert (appointments (statusWritten id a s1 st) !! id
          = Some (Appointment.set_status s1 a)) as Ha1.
  { unfold statusWritten. simpl. by rewrite lookup_insert_eq. }
  assert (notAuthorized user (Appointment.set_status s1 a) (statusWritten id a s1 st)
          = (Ok false, statusWritten id a s1 st)) as Hb1.
  { by apply (notAuthorized_frame user a _ st). }
  pose proof (Appointment_validate_set_status _ s2 Hv1 (accepted_in_enum _ H2))
    as Hv2.
  rewrite (patchStatus_written _ _ _ _ _ H2 Ha1 Hb1 Hv2). simpl.
  split; [done|]. split; [by rewrite lookup_insert_eq|].
  rewrite map_size_insert_None by apply not_elem_of_dom, is_fresh.
  f_equal. apply map_size_insert_None, not_elem_of_dom, is_fresh.
Qed.

Lemma patchStatus_twice_witness :
  let st1 := (patchStatus (2, drWho) 100 "completed" (clinic "pending")).2 in
  let res := patchStatus (2, drWho) 100 "confirmed" st1 in
  statusCode res.1 = 200
  ∧ appointments res.2 !! 100 = Some (booking 1 10 "confirmed")
  ∧ size (notifications res.2) = 2.
Proof.
  assert ("completed" ∈ ["confirmed"; "cancelled"; "completed"; "rescheduled"])
    as H1 by by_compute.
  assert ("confirmed" ∈ ["confirmed"; "cancelled"; "completed"; "rescheduled"])
    as H2 by by_compute.
  assert (notAuthorized (2, drWho) (booking 1 10 "pending") (clinic "pending")
          = (Ok false, clinic "pending")) as Hb by (vm_compute; reflexivity).
  exact (patchStatus_twice (2, drWho) 100 "completed" "confirmed" (clinic "pending")
           (booking 1 10 "pending") H1 H2 eq_refl eq_refl Hb).
Defined.

(** X13: A status update by an authorized caller on a stored appointment that
    passes the validators of its schema goes through and stores the requested
    status; the method [canBeModified] of the stored appointment then answers
    [true] only when that status is "confirmed": the route cannot put an
    appointment back to "pending". *)
Theorem patchStatus_then_canBeModified (user : ObjectId * User.doc) id status st a :
  status ∈ ["confirmed"; "cancelled"; "completed"; "rescheduled"] →
  appointments st !! id = Some a →
  Appointment_validate a = true →
  notAuthorized user a st = (Ok false, st) →
  statusCode (patchStatus user id status st).1 = 200
  ∧ ∃ a', appointments (patchStatus user id status st).2 !! id = Some a'
          ∧ Appointment.status a' = status
          ∧ (canBeModified a' = true ↔ status = "confirmed").
Proof.
  fold accepted_statuses. intros Hin Ha Hvalid Hb.
  pose proof (Appointment_validate_set_status a status Hvalid (accepted_in_enum _ Hin))
    as Hv.
  rewrite (patchStatus_written _ _ _ _ _ Hin Ha Hb Hv). simpl.
  split; [done|].
  eexists. split; [by rewrite lookup_insert_eq|]. split; [done|].
  unfold canBeModified. simpl. unfold accepted_statuses in Hin.
  rewrite bool_decide_eq_true, !elem_of_cons, elem_of_nil.
  rewrite !elem_of_cons, elem_of_nil in Hin.
  split.
  - intros [->|[->|[]]]; [|done].
    destruct Hin as [?|[?|[?|[?|[]]]]]; discriminate.
  - intros ->. by right; left.
Qed.

Lemma patchStatus_then_canBeModified_witness :
  statusCode (patchStatus (1, alice) 100 "cancelled" (clinic "pending")).1 = 200
  ∧ ∃ a', appointments (patchStatus (1, alice) 100 "cancelled" (clinic "pending")).2
            !! 100 = Some a'
          ∧ Appointment.status a' = "cancelled"
          ∧ (canBeModified a' = true ↔ "cancelled" = "confirmed").
Proof.
  assert ("cancelled" ∈ ["confirmed"; "cancelled"; "completed"; "rescheduled"])
    as Hin by by_compute.
  exact (patchStatus_then_canBeModified (1, alice) 100 "cancelled" (clinic "pending")
           (booking 1 10 "pending") Hin eq_refl eq_refl eq_refl).
Defined.

(** ** Registration, continued *)

Lemma register_created {Token SafeUser : Type} (generateToken : ObjectId → Token)
    (toSafeObject : ObjectId * User.doc → SafeUser)
    email password fullName role st :
  email ≠ "" → password ≠ "" → fullName ≠ "" → role ≠ "" →
  (∀ id u, users st !! id = Some u → User.email u ≠ email) →
  role ∈ ["patient"; "doctor"; "admin"] →
  let u := User.mk email password fullName role in
  let id := fresh (dom (users st)) in
  register Token SafeUser generateToken toSafeObject
    (mkRegisterInput (Some email) (Some password) (Some fullName) (Some role)) st
  = (succeed 201 (generateToken id, toSafeObject (id, u)),
     with_users (λ _, <[id := u]> (users st)) st).
Proof.
  intros He Hp Hf Hr Hnew Hrole u id. unfold register, handler. simpl.
  apply String.eqb_neq in He, Hp, Hf, Hr. rewrite He, Hp, Hf, Hr. simpl.
  unfold bind at 1. unfold User_findOne_email, bind, get_store, ret. simpl.
  assert (findOne (λ _ u0, String.eqb (User.email u0) email) (users st) = None)
    as ->.
  { apply findOne_None. intros i x Hx. apply String.eqb_neq. by eapply Hnew. }
  simpl. unfold User_create. simpl.
  rewrite bool_decide_eq_true_2 by exact Hrole. done.
Qed.

(** X14: A registration with all four fields, an email no user has and a role the
    user model accepts is answered 201 and stores one user with that email
    and name; a second registration with that email, whatever its other
    fields, is then answered 400 and stores nothing. *)
Theorem register_then_duplicate {Token SafeUser : Type}
    (generateToken : ObjectId → Token)
    (toSafeObject : ObjectId * User.doc → SafeUser)
    email password fullName role second st :
  email ≠ "" → password ≠ "" → fullName ≠ "" → role ≠ "" →
  (∀ id u, users st !! id = Some u → User.email u ≠ email) →
  role ∈ ["patient"; "doctor"; "admin"] →
  in_email second = Some email →
  let res1 := register Token SafeUser generateToken toSafeObject
                (mkRegisterInput (Some email) (Some password) (Some fullName)
                                 (Some role)) st in
  let res2 := register Token SafeUser generateToken toSafeObject second res1.2 in
  statusCode res1.1 = 201
  ∧ users res1.2 = <[fresh (dom (users st)) := User.mk email password fullName role]>
                     (users st)
  ∧ size (users res1.2) = S (size (users st))
  ∧ statusCode res2.1 = 400 ∧ success res2.1 = false ∧ res2.2 = res1.2.
Proof.
  intros He Hp Hf Hr Hnew Hrole Hsecond res1 res2. subst res2 res1.
  rewrite (register_created generateToken toSafeObject email password fullName
             role st He Hp Hf Hr Hnew Hrole).
  cbn [fst snd]. split; [done|]. split; [done|].
  split; [apply map_size_insert_None, not_elem_of_dom, is_fresh|].
  destruct (falsy (in_email second) || falsy (in_password second)
            || falsy (in_fullName second) || falsy (in_role second)) eqn:Hfalsy.
  - by rewrite (register_missing_field _ _ _ _ Hfalsy).
  - rewrite (register_existing_email generateToken toSafeObject second _
               (fresh (dom (users st))) (User.mk email password fullName role)
               Hfalsy); [done| |done].
    simpl. by rewrite lookup_insert_eq.
Qed.

Lemma register_then_duplicate_witness :
  let res1 := register nat string id (λ u, User.email u.2)
                (mkRegisterInput (Some "carol@example.com") (Some "pw-c")
                                 (Some "Carol") (Some "patient"))
                (clinic "pending") in
  let res2 := register nat string id (λ u, User.email u.2)
                (mkRegisterInput (Some "carol@example.com") (Some "other")
                                 (Some "Carol Two") (Some "doctor")) res1.2 in
  statusCode res1.1 = 201 ∧ size (users res1.2) = 5
  ∧ statusCode res2.1 = 400 ∧ res2.2 = res1.2.
Proof.
  assert (∀ i u, users (clinic "pending") !! i = Some u →
                 User.email u ≠ "carol@example.com") as Hnew.
  { intros i u Hu. apply String.eqb_neq.
    apply (proj1 (findOne_None
                    (λ _ x, String.eqb (User.email x) "carol@example.com")
                    (users (clinic "pending")))
                 ltac:(vm_compute; reflexivity) i u Hu). }
  assert ("patient" ∈ ["patient"; "doctor"; "admin"]) as Hrole by by_compute.
  destruct (register_then_duplicate id (λ u, User.email u.2)
              "carol@example.com" "pw-c" "Carol" "patient"
              (mkRegisterInput (Some "carol@example.com") (Some "other")
                               (Some "Carol Two") (Some "doctor"))
              (clinic "pending")) as (H1 & _ & H2 & H3 & _ & H4);
    try discriminate; try done.
Defined.

(** ** Login and the current user *)

Section SessionProperties.

Context {Token SafeUser : Type}.
Variable generateToken : ObjectId → Token.
Variable toSafeObject : ObjectId * User.doc → SafeUser.
Variable comparePassword : User.doc → string → bool.
Variable verify : string → option ObjectId.

Lemma falsy_false x : falsy x = false ↔ ∃ s, x = Some s ∧ s ≠ "".
Proof.
  destruct x as [s|]; simpl.
  - rewrite String.eqb_neq. split; [by eauto|]. by intros (? & [= <-] & ?).
  - split; [done|]. by intros (? & [=] & _).
Qed.

(** X15: Login writes nothing, and it is answered 200 exactly when email and
    password are both given, a user with that email is found and
    [comparePassword] accepts the password for that user. *)
Theorem login_succeeds_iff body st :
  let res := login Token SafeUser generateToken toSafeObject comparePassword body st in
  res.2 = st
  ∧ (statusCode res.1 = 200
     ↔ ∃ email password user,
         login_email body = Some email ∧ email ≠ ""
         ∧ login_password body = Some password ∧ password ≠ ""
         ∧ findOne (λ _ u, String.eqb (User.email u) email) (users st) = Some user
         ∧ comparePassword user.2 password = true).
Proof.
  intros res. subst res. unfold login, handler.
  destruct (falsy (login_email body)) eqn:He; simpl.
  { split; [done|]. split; [done|].
    intros (email & password & user & Hem & Hne & _).
    rewrite Hem in He. simpl in He. by apply String.eqb_neq in Hne; congruence. }
  destruct (falsy (login_password body)) eqn:Hp; simpl.
  { split; [done|]. split; [done|].
    intros (email & password & user & _ & _ & Hpw & Hne & _).
    rewrite Hpw in Hp. simpl in Hp. by apply String.eqb_neq in Hne; congruence. }
  apply falsy_false in He as (email & -> & Hemail).
  apply falsy_false in Hp as (password & -> & Hpassword).
  unfold bind, User_findOne_email, get_store, ret. simpl.
  destruct (findOne _ _) as [user|] eqn:Hfind; simpl.
  - destruct (comparePassword user.2 password) eqn:Hcmp; simpl.
    + split; [done|]. split; [|done]. intros _. by exists email, password, user.
    + split; [done|]. split; [done|].
      intros (? & ? & ? & [= <-] & _ & [= <-] & _ & Hf & Hc). congruence.
  - split; [done|]. split; [done|].
    intros (? & ? & ? & [= <-] & _ & _ & _ & Hf & _). congruence.
Qed.

(** X16: A login with email and password given that does not succeed is answered
    401 "Invalid credentials", the same for an unknown email and for a wrong
    password. *)
Theorem login_failures_alike body st :
  falsy (login_email body) = false → falsy (login_password body) = false →
  let res := login Token SafeUser generateToken toSafeObject comparePassword body st in
  statusCode res.1 ≠ 200 → res.1 = failure 401 "Invalid credentials".
Proof.
  intros He Hp res. subst res. unfold login, handler. rewrite He, Hp. simpl.
  unfold bind, User_findOne_email, get_store, ret. simpl.
  destruct (findOne _ _) as [user|]; simpl; [|done].
  destruct (comparePassword _ _); simpl; [|done]. intros Hne. by destruct Hne.
Qed.

(** Splitting at spaces a string that has none gives the string itself. *)
Lemma split_space_no_space s : has_space s = false → split_space s = [s].
Proof.
  induction s as [|c s IH]; simpl; [done|].
  intros Hc. apply orb_false_iff in Hc as [Hc Hs]. rewrite Hc, (IH Hs). done.
Qed.

Lemma split_space_app s t :
  has_space s = false → split_space (s +:+ " " +:+ t) = s :: split_space t.
Proof.
  induction s as [|c s IH]; simpl; [done|].
  intros Hc. apply orb_false_iff in Hc as [Hc Hs]. rewrite Hc, (IH Hs). done.
Qed.

(** X17: The token of an Authorization header "scheme token" is read back
    whole when neither part has a space, whatever the scheme is: the word
    before the token is not compared with "Bearer". *)
Theorem bearerToken_roundtrip scheme token :
  has_space scheme = false → has_space token = false →
  bearerToken (Some (scheme +:+ " " +:+ token)) = Some token.
Proof.
  intros Hs Ht. unfold bearerToken. simpl.
  by rewrite (split_space_app _ _ Hs), (split_space_no_space _ Ht).
Qed.

(** X18: The current-user route writes nothing, never answers 500, and is
    answered 200 exactly when the header has a non-empty second word that
    [jwt.verify] accepts and that names a stored user; the answer then is that
    user without the password hash. *)
Theorem me_succeeds_iff authorization st :
  let res := me verify authorization st in
  res.2 = st ∧ statusCode res.1 ≠ 500
  ∧ (statusCode res.1 = 200
     ↔ ∃ token userId user,
         bearerToken authorization = Some token ∧ token ≠ ""
         ∧ verify token = Some userId ∧ users st !! userId = Some user
         ∧ payload res.1 = Some (withoutPasswordHash userId user)).
Proof.
  intros res. subst res. unfold me.
  destruct (falsy (bearerToken authorization)) eqn:Htok; simpl.
  { split; [done|]. split; [done|]. split; [done|].
    intros (token & ? & ? & Hb & Hne & _). rewrite Hb in Htok. simpl in Htok.
    apply String.eqb_neq in Hne. congruence. }
  apply falsy_false in Htok as (token & -> & Hne). simpl.
  destruct (verify token) as [userId|] eqn:Hv; simpl.
  - unfold findById. destruct (users st !! userId) as [user|] eqn:Hu; simpl.
    + split; [done|]. split; [done|]. split; [|done]. intros _.
      by exists token, userId, user.
    + split; [done|]. split; [done|]. split; [done|].
      intros (? & ? & ? & [= <-] & _ & Hv' & Hu' & _). congruence.
  - split; [done|]. split; [done|]. split; [done|].
    intros (? & ? & ? & [= <-] & _ & Hv' & _). congruence.
Qed.

End SessionProperties.

Lemma login_failures_alike_witness :
  (login nat string id (λ u, User.email u.2)
         (λ u p, String.eqb (User.passwordHash u) p)
         (mkLoginInput (Some "alice@example.com") (Some "guess"))
         (clinic "pending")).1
  = failure 401 "Invalid credentials"
  ∧ (login nat string id (λ u, User.email u.2)
           (λ u p, String.eqb (User.passwordHash u) p)
           (mkLoginInput (Some "nobody@example.com") (Some "guess"))
           (clinic "pending")).1
    = failure 401 "Invalid credentials".
Proof.
  split.
  - apply (login_failures_alike id (λ u, User.email u.2)
             (λ u p, String.eqb (User.passwordHash u) p)
             (mkLoginInput (Some "alice@example.com") (Some "guess"))
             (clinic "pending") eq_refl eq_refl).
    vm_compute. discriminate.
  - apply (login_failures_alike id (λ u, User.email u.2)
             (λ u p, String.eqb (User.passwordHash u) p)
             (mkLoginInput (Some "nobody@example.com") (Some "guess"))
             (clinic "pending") eq_refl eq_refl).
    vm_compute. discriminate.
Defined.

Lemma bearerToken_roundtrip_witness :
  bearerToken (Some "Bearer abc.def.ghi") = Some "abc.def.ghi"
  ∧ bearerToken (Some "Basic abc.def.ghi") = Some "abc.def.ghi".
Proof.
  split.
  - exact (bearerToken_roundtrip "Bearer" "abc.def.ghi" eq_refl eq_refl).
  - exact (bearerToken_roundtrip "Basic" "abc.def.ghi" eq_refl eq_refl).
Defined.

(** ** The time format of the schema *)

Lemma digit_in_inv (lo hi : nat) c :
  (hi ≤ 9)%nat → digit_in lo hi c = true → ∃ d, (lo ≤ d ≤ hi)%nat ∧ c = digit d.
Proof.
  unfold digit_in, digit. intros Hhi Hc.
  apply andb_true_iff in Hc as [H1 H2].
  apply Nat.leb_le in H1, H2.
  exists (nat_of_ascii c - 48). split; [lia|].
  replace (48 + (nat_of_ascii c - 48)) with (nat_of_ascii c) by lia.
  by rewrite ascii_nat_embedding.
Qed.

Lemma matches_HHmm_all :
  forallb (λ h, forallb (λ m, matches_HHmm (HHmm h m)
                              && (negb (h <? 10)%nat || matches_HHmm (Hmm h m)))
                        (seq 0 60))
          (seq 0 24) = true.
Proof. vm_compute. reflexivity. Qed.

(** X19: The pattern of [appointmentTime] accepts every time of the day written
    HH:mm, and H:mm for the hours before 10. *)
Theorem matches_HHmm_accepts (h m : nat) :
  (h < 24)%nat → (m < 60)%nat →
  matches_HHmm (HHmm h m) = true
  ∧ ((h < 10)%nat → matches_HHmm (Hmm h m) = true).
Proof.
  intros Hh Hm. pose proof matches_HHmm_all as Hall.
  rewrite forallb_forall in Hall. specialize (Hall h).
  rewrite forallb_forall in Hall.
  assert (In h (seq 0 24)) as Hinh by (apply in_seq; lia).
  assert (In m (seq 0 60)) as Hinm by (apply in_seq; lia).
  specialize (Hall Hinh m Hinm). apply andb_true_iff in Hall as [H1 H2].
  split; [exact H1|]. intros Hlt. apply Nat.ltb_lt in Hlt.
  rewrite Hlt in H2. exact H2.
Qed.

Lemma matches_HHmm_accepts_witness :
  matches_HHmm "23:59" = true ∧ matches_HHmm "7:05" = true.
Proof.
  destruct (matches_HHmm_accepts 23 59) as [H1 _]; [lia|lia|].
  destruct (matches_HHmm_accepts 7 5) as [_ H2]; [lia|lia|].
  split; [exact H1|]. apply H2. lia.
Defined.

(** X20: The pattern accepts nothing else: a string it accepts is a time of the
    day, hour below 24 and minute below 60, written HH:mm or H:mm. *)
Theorem matches_HHmm_only s :
  matches_HHmm s = true →
  ∃ h m : nat, (h < 24)%nat ∧ (m < 60)%nat
               ∧ (s = HHmm h m ∨ ((h < 10)%nat ∧ s = Hmm h m)).
Proof.
  assert (Hdiv : ∀ a b : nat, (b ≤ 9)%nat →
            ((10 * a + b) / 10 = a ∧ (10 * a + b) mod 10 = b)%nat).
  { intros a b Hb. split.
    - symmetry. apply (Nat.div_unique _ 10 a b); lia.
    - symmetry. apply (Nat.mod_unique _ 10 a b); lia. }
  assert (Hmin : ∀ m1 m2, digit_in 0 5 m1 = true → digit_in 0 9 m2 = true →
            ∃ m : nat, (m < 60)%nat ∧ m1 = digit (m / 10) ∧ m2 = digit (m mod 10)).
  { intros m1 m2 H1 H2.
    apply digit_in_inv in H1 as (d1 & Hd1 & ->); [|lia].
    apply digit_in_inv in H2 as (d2 & Hd2 & ->); [|lia].
    exists (10 * d1 + d2)%nat. destruct (Hdiv d1 d2) as [-> ->]; [lia|].
    split; [lia|done]. }
  destruct s as [|c1 [|c2 [|c3 [|c4 [|c5 [|c6 s]]]]]]; simpl; try done.
  - rewrite !andb_true_iff. intros [[[Hh Hsep] Hm1] Hm2].
    apply Ascii.eqb_eq in Hsep as ->.
    apply digit_in_inv in Hh as (h & Hh & ->); [|lia].
    destruct (Hmin _ _ Hm1 Hm2) as (m & Hm & -> & ->).
    exists h, m. split; [lia|]. split; [done|]. right. split; [lia|done].
  - rewrite !andb_true_iff, orb_true_iff, !andb_true_iff.
    intros [[[Hh Hsep] Hm1] Hm2].
    apply Ascii.eqb_eq in Hsep as ->.
    destruct (Hmin _ _ Hm1 Hm2) as (m & Hm & -> & ->).
    destruct Hh as [[H1 H2]|[H1 H2]].
    + apply digit_in_inv in H1 as (d1 & Hd1 & ->); [|lia].
      apply digit_in_inv in H2 as (d2 & Hd2 & ->); [|lia].
      exists (10 * d1 + d2)%nat, m. destruct (Hdiv d1 d2) as [Hq Hr]; [lia|].
      split; [lia|]. split; [done|]. left. unfold HHmm. by rewrite Hq, Hr.
    + apply Ascii.eqb_eq in H1 as ->.
      apply digit_in_inv in H2 as (d2 & Hd2 & ->); [|lia].
      exists (20 + d2)%nat, m.
      destruct (Hdiv 2 d2) as [Hq Hr]; [lia|]. simpl in Hq, Hr.
      split; [lia|]. split; [done|]. left. unfold HHmm.
      change (20 + d2)%nat with (10 * 2 + d2)%nat at 1 2.
      destruct (Hdiv 2 d2) as [-> ->]; [lia|]. done.
Qed.

Lemma matches_HHmm_only_witness :
  ∃ h m : nat, (h < 24)%nat ∧ (m < 60)%nat
               ∧ ("09:30" = HHmm h m ∨ ((h < 10)%nat ∧ "09:30" = Hmm h m)).
Proof. exact (matches_HHmm_only "09:30" eq_refl). Defined.

(** ** Statements of the relational backend, read backwards *)

Lemma unique_in_Some {A B} `{EqDecision B} (col : A → B) (tbl : gmap Sql.uuid A)
    self v :
  Sql.unique_in col tbl self v = true ↔
  ∀ id r, tbl !! id = Some r → Some id ≠ self → col r ≠ v.
Proof.
  unfold Sql.unique_in. rewrite forallb_forall. split.
  - intros Hall id r Hr Hself. specialize (Hall (id, r)). simpl in Hall.
    rewrite <- list_elem_of_In, elem_of_map_to_list in Hall.
    specialize (Hall Hr). apply orb_true_iff in Hall as [Hs|Hv].
    + by apply bool_decide_eq_true in Hs.
    + by apply negb_true_iff, bool_decide_eq_false in Hv.
  - intros Hall [id r] Hin. simpl.
    rewrite <- list_elem_of_In, elem_of_map_to_list in Hin.
    destruct (decide (Some id = self)) as [Heq|Hne].
    + by rewrite (bool_decide_eq_true_2 _ Heq).
    + rewrite (bool_decide_eq_false_2 _ Hne). simpl.
      apply negb_true_iff, bool_decide_eq_false. by eapply Hall.
Qed.

Lemma insert_profile_Some uid id NEW db db' :
  Sql.insert_profile uid id NEW db = Some db' →
  id = uid ∧ Sql.profiles db !! id = None
  ∧ (∀ i p, Sql.profiles db !! i = Some p → Sql.p_email p ≠ Sql.p_email NEW)
  ∧ Sql.p_role NEW ∈ ["patient"; "doctor"; "admin"]
  ∧ db' = Sql.mkDb (<[id := NEW]> (Sql.profiles db)) (Sql.doctor_profiles db)
                   (Sql.appointments db) (Sql.reviews db).
Proof.
  unfold Sql.insert_profile.
  destruct (_ && _) eqn:Hc; [|done]. intros [= <-].
  rewrite !andb_true_iff in Hc. destruct Hc as [[[H1 H2] H3] H4].
  apply Nat.eqb_eq in H1. apply bool_decide_eq_true in H2.
  apply bool_decide_eq_true in H4.
  repeat split; try done. intros i p Hp.
  by apply (proj1 (unique_in_Some _ _ _ _) H3 i p Hp).
Qed.

Lemma update_profile_Some uid id NEW db db' :
  Sql.update_profile uid id NEW db = Some db' →
  id = uid ∧ is_Some (Sql.profiles db !! id)
  ∧ (∀ i p, Sql.profiles db !! i = Some p → i ≠ id →
            Sql.p_email p ≠ Sql.p_email NEW)
  ∧ Sql.p_role NEW ∈ ["patient"; "doctor"; "admin"]
  ∧ db' = Sql.mkDb (<[id := NEW]> (Sql.profiles db)) (Sql.doctor_profiles db)
                   (Sql.appointments db) (Sql.reviews db).
Proof.
  unfold Sql.update_profile.
  destruct (Sql.profiles db !! id) as [OLD|]; [|done].
  destruct (_ && _) eqn:Hc; [|done]. intros [= <-].
  rewrite !andb_true_iff in Hc. destruct Hc as [[H1 H2] H3].
  apply Nat.eqb_eq in H1. apply bool_decide_eq_true in H3.
  repeat split; try done. intros i p Hp Hne.
  apply (proj1 (unique_in_Some _ _ _ _) H2 i p Hp). congruence.
Qed.

(** The column types change the rating at most. *)
Lemma doctor_profiles_typed_Some NEW row :
  Sql.doctor_profiles_typed NEW = Some row →
  row = Sql.set_rating (Sql.d_rating row) NEW
  ∧ (-2147483648 ≤ Sql.d_total_consultations NEW ≤ 2147483647)%Z
  ∧ match Sql.d_rating NEW with
    | Some q => ∃ r, Sql.cast_decimal_3_2 q = Some r ∧ Sql.d_rating row = Some r
    | None => Sql.d_rating row = None
    end.
Proof.
  unfold Sql.doctor_profiles_typed, Sql.int4.
  destruct (_ && _) eqn:Hint; [|done]. apply andb_true_iff in Hint as [H1 H2].
  apply Z.leb_le in H1, H2.
  destruct (Sql.d_rating NEW) as [q|] eqn:Hq.
  - destruct (Sql.cast_decimal_3_2 q) as [r|]; simpl; [|done].
    intros [= <-]. simpl. split; [done|]. split; [done|]. by exists r.
  - intros [= <-]. rewrite Hq. split; [by destruct NEW; simpl in *; subst|done].
Qed.

Lemma insert_doctor_profile_Some uid NEW db db' :
  Sql.insert_doctor_profile uid NEW db = Some db' →
  Sql.d_user_id NEW = uid ∧ is_Some (Sql.profiles db !! Sql.d_user_id NEW)
  ∧ (∀ i d, Sql.doctor_profiles db !! i = Some d →
            Sql.d_user_id d ≠ Sql.d_user_id NEW
            ∧ Sql.d_license_number d ≠ Sql.d_license_number NEW)
  ∧ ∃ row, Sql.doctor_profiles_typed NEW = Some row
           ∧ db' = Sql.mkDb (Sql.profiles db)
                     (<[fresh (dom (Sql.doctor_profiles db)) := row]>
                        (Sql.doctor_profiles db))
                     (Sql.appointments db) (Sql.reviews db).
Proof.
  unfold Sql.insert_doctor_profile.
  destruct (_ && _) eqn:Hc; [|done].
  destruct (Sql.doctor_profiles_typed NEW) as [row|]; simpl; [|done].
  intros [= <-].
  rewrite !andb_true_iff in Hc. destruct Hc as [[[H1 H2] H3] H4].
  apply Nat.eqb_eq in H1. apply bool_decide_eq_true in H2.
  split; [done|]. split; [done|]. split; [|by exists row].
  intros i d Hd. split.
  - by apply (proj1 (unique_in_Some _ _ _ _) H3 i d).
  - by apply (proj1 (unique_in_Some _ _ _ _) H4 i d).
Qed.

Lemma update_doctor_profile_Some uid id NEW db db' :
  Sql.update_doctor_profile uid id NEW db = Some db' →
  ∃ OLD row, Sql.doctor_profiles db !! id = Some OLD
         ∧ Sql.d_user_id OLD = uid ∧ Sql.d_user_id NEW = uid
         ∧ (∀ i d, Sql.doctor_profiles db !! i = Some d → i ≠ id →
                   Sql.d_user_id d ≠ Sql.d_user_id NEW
                   ∧ Sql.d_license_number d ≠ Sql.d_license_number NEW)
         ∧ Sql.doctor_profiles_typed NEW = Some row
         ∧ db' = Sql.mkDb (Sql.profiles db) (<[id := row]> (Sql.doctor_profiles db))
                          (Sql.appointments db) (Sql.reviews db).
Proof.
  unfold Sql.update_doctor_profile.
  destruct (Sql.doctor_profiles db !! id) as [OLD|]; [|done].
  destruct (_ && _) eqn:Hc; [|done].
  destruct (Sql.doctor_profiles_typed NEW) as [row|]; simpl; [|done].
  intros [= <-].
  rewrite !andb_true_iff in Hc. destruct Hc as [[[H1 H2] H3] H4].
  apply Nat.eqb_eq in H1, H2. exists OLD, row.
  split; [done|]. split; [done|]. split; [done|]. split; [|done].
  intros i d Hd Hne. split.
  - apply (proj1 (unique_in_Some _ _ _ _) H3 i d); [done|congruence].
  - apply (proj1 (unique_in_Some _ _ _ _) H4 i d); [done|congruence].
Qed.

Lemma insert_appointment_Some uid NEW db db' :
  Sql.insert_appointment uid NEW db = Some db' →
  Sql.a_patient_id NEW = uid
  ∧ is_Some (Sql.profiles db !! Sql.a_patient_id NEW)
  ∧ is_Some (Sql.doctor_profiles db !! Sql.a_doctor_id NEW)
  ∧ Sql.a_status NEW ∈
      ["pending"; "confirmed"; "completed"; "cancelled"; "rescheduled"]
  ∧ db' = Sql.mkDb (Sql.profiles db) (Sql.doctor_profiles db)
            (<[fresh (dom (Sql.appointments db)) := NEW]> (Sql.appointments db))
            (Sql.reviews db).
Proof.
  unfold Sql.insert_appointment.
  destruct (_ && _) eqn:Hc; [|done]. intros [= <-].
  rewrite !andb_true_iff in Hc. destruct Hc as [[[H1 H2] H3] H4].
  apply Nat.eqb_eq in H1. apply bool_decide_eq_true in H2, H3.
  apply bool_decide_eq_true in H4. done.
Qed.

Lemma update_appointment_Some uid id NEW db db' :
  Sql.update_appointment uid id NEW db = Some db' →
  ∃ OLD, Sql.appointments db !! id = Some OLD
         ∧ Sql.appointment_policy db uid OLD = true
         ∧ Sql.appointment_policy db uid NEW = true
         ∧ is_Some (Sql.profiles db !! Sql.a_patient_id NEW)
         ∧ is_Some (Sql.doctor_profiles db !! Sql.a_doctor_id NEW)
         ∧ Sql.a_status NEW ∈
             ["pending"; "confirmed"; "completed"; "cancelled"; "rescheduled"]
         ∧ db' = Sql.mkDb (Sql.profiles db) (Sql.doctor_profiles db)
                          (<[id := NEW]> (Sql.appointments db)) (Sql.reviews db).
Proof.
  unfold Sql.update_appointment.
  destruct (Sql.appointments db !! id) as [OLD|]; [|done].
  destruct (_ && _) eqn:Hc; [|done]. intros [= <-].
  rewrite !andb_true_iff in Hc. destruct Hc as [[[[H1 H2] H3] H4] H5].
  apply bool_decide_eq_true in H3, H4. apply bool_decide_eq_true in H5.
  exists OLD. done.
Qed.

(** The trigger function changes at most the rating of the reviewed doctor,
    and then to the value of its subquery. *)
Lemma update_doctor_rating_Some uid NEW db db' :
  Sql.update_doctor_rating uid NEW db = Some db' →
  Sql.profiles db' = Sql.profiles db ∧ Sql.appointments db' = Sql.appointments db
  ∧ Sql.reviews db' = Sql.reviews db
  ∧ (Sql.doctor_profiles db' = Sql.doctor_profiles db
     ∨ ∃ d v, Sql.doctor_profiles db !! Sql.r_doctor_id NEW = Some d
              ∧ Sql.d_user_id d = uid
              ∧ Sql.avg_rating_decimal db (Sql.r_doctor_id NEW) = Some v
              ∧ Sql.doctor_profiles db'
                = <[Sql.r_doctor_id NEW := Sql.set_rating v d]>
                    (Sql.doctor_profiles db)).
Proof.
  unfold Sql.update_doctor_rating.
  destruct (Sql.doctor_profiles db !! _) as [d|] eqn:Hd;
    [|intros [= <-]; by eauto].
  destruct (Nat.eqb_spec (Sql.d_user_id d) uid) as [Hu|Hu];
    [|intros [= <-]; by eauto].
  destruct (Sql.avg_rating_decimal _ _) as [v|] eqn:Hv; simpl; [|done].
  intros [= <-]. simpl. repeat split; try done. right. by exists d, v.
Qed.

Lemma insert_review_inv uid NEW db db' :
  Sql.insert_review uid NEW db = Some db' →
  Sql.r_patient_id NEW = uid
  ∧ (∃ a, Sql.appointments db !! Sql.r_appointment_id NEW = Some a
          ∧ Sql.a_patient_id a = uid ∧ Sql.a_status a = "completed")
  ∧ is_Some (Sql.profiles db !! Sql.r_patient_id NEW)
  ∧ is_Some (Sql.doctor_profiles db !! Sql.r_doctor_id NEW)
  ∧ (∀ id r, Sql.reviews db !! id = Some r →
             Sql.r_appointment_id r ≠ Sql.r_appointment_id NEW)
  ∧ (1 ≤ Sql.r_rating NEW ≤ 5)%Z
  ∧ Sql.update_doctor_rating uid NEW
      (Sql.mkDb (Sql.profiles db) (Sql.doctor_profiles db) (Sql.appointments db)
                (<[fresh (dom (Sql.reviews db)) := NEW]> (Sql.reviews db)))
    = Some db'.
Proof.
  unfold Sql.insert_review.
  destruct (_ && _) eqn:Hc; [|done]. intros Htrig.
  rewrite !andb_true_iff in Hc.
  destruct Hc as [[[[[[H1 H2] H3] H4] H5] H6] H7].
  apply bool_decide_eq_true in H2, H3, H4. apply Z.leb_le in H6, H7.
  unfold Sql.review_insert_policy in H1. apply andb_true_iff in H1 as [Hp Ha].
  apply Nat.eqb_eq in Hp.
  destruct (Sql.appointments db !! Sql.r_appointment_id NEW) as [a|]; [|done].
  apply andb_true_iff in Ha as [Ha1 Ha2].
  apply Nat.eqb_eq in Ha1. apply String.eqb_eq in Ha2.
  repeat split; try done; [by exists a|].
  intros id r Hr. by apply (proj1 (unique_in_Some _ _ _ _) H5 id r Hr).
Qed.

(** ** Constraints as invariants of the reachable states *)

Lemma is_Some_insert {A} (m : gmap Sql.uuid A) i x j :
  is_Some (m !! j) → is_Some (<[i := x]> m !! j).
Proof. rewrite lookup_insert_is_Some'. auto. Qed.

Lemma reachable_ind (P : Sql.Db → Prop) :
  P Sql.emptyDb →
  (∀ s db db', Sql.exec s db = Some db' → P db → P db') →
  ∀ db, Sql.reachable db → P db.
Proof.
  intros Hinit Hstep. unfold Sql.reachable. apply rtc_ind_r; [done|].
  intros db db' _ [s Hexec] HP. by eapply Hstep.
Qed.

Lemma exec_referential_integrity s db db' :
  Sql.exec s db = Some db' → referential_integrity db → referential_integrity db'.
Proof.
  intros Hexec (Hdp & Hap & Hrv).
  destruct s as [uid id NEW|uid id NEW|uid NEW|uid id NEW|uid NEW|uid id NEW|uid NEW];
    simpl in Hexec.
  - apply insert_profile_Some in Hexec as (_ & _ & _ & _ & ->).
    split; [|split]; simpl.
    + intros i d Hd. by eapply is_Some_insert, Hdp.
    + intros i a Ha. destruct (Hap i a Ha). split; [by apply is_Some_insert|done].
    + intros i r Hr. destruct (Hrv i r Hr) as (? & ? & ?).
      split; [done|]. split; [by apply is_Some_insert|done].
  - apply update_profile_Some in Hexec as (_ & _ & _ & _ & ->).
    split; [|split]; simpl.
    + intros i d Hd. by eapply is_Some_insert, Hdp.
    + intros i a Ha. destruct (Hap i a Ha). split; [by apply is_Some_insert|done].
    + intros i r Hr. destruct (Hrv i r Hr) as (? & ? & ?).
      split; [done|]. split; [by apply is_Some_insert|done].
  - apply insert_doctor_profile_Some in Hexec as (_ & Hu & _ & row & Hrow & ->).
    apply doctor_profiles_typed_Some in Hrow as (Hrow & _).
    split; [|split]; simpl.
    + intros i d Hd. apply lookup_insert_Some in Hd as [[_ <-]|[_ Hd]].
      * rewrite Hrow. done.
      * by eapply Hdp.
    + intros i a Ha. destruct (Hap i a Ha). split; [done|by apply is_Some_insert].
    + intros i r Hr. destruct (Hrv i r Hr) as (? & ? & ?).
      split; [done|]. split; [done|by apply is_Some_insert].
  - apply update_doctor_profile_Some in Hexec
      as (OLD & row & Hold & Ho & Hn & _ & Hrow & ->).
    apply doctor_profiles_typed_Some in Hrow as (Hrow & _).
    split; [|split]; simpl.
    + intros i d Hd. apply lookup_insert_Some in Hd as [[_ <-]|[_ Hd]].
      * rewrite Hrow. simpl. rewrite Hn, <- Ho. by eapply Hdp.
      * by eapply Hdp.
    + intros i a Ha. destruct (Hap i a Ha). split; [done|by apply is_Some_insert].
    + intros i r Hr. destruct (Hrv i r Hr) as (? & ? & ?).
      split; [done|]. split; [done|by apply is_Some_insert].
  - apply insert_appointment_Some in Hexec as (_ & Hp & Hd & _ & ->).
    split; [|split]; simpl.
    + done.
    + intros i a Ha. apply lookup_insert_Some in Ha as [[_ <-]|[_ Ha]]; [done|].
      by eapply Hap.
    + intros i r Hr. destruct (Hrv i r Hr) as (? & ? & ?).
      split; [by apply is_Some_insert|done].
  - apply update_appointment_Some in Hexec as (OLD & _ & _ & _ & Hp & Hd & _ & ->).
    split; [|split]; simpl.
    + done.
    + intros i a Ha. apply lookup_insert_Some in Ha as [[_ <-]|[_ Ha]]; [done|].
      by eapply Hap.
    + intros i r Hr. destruct (Hrv i r Hr) as (? & ? & ?).
      split; [by apply is_Some_insert|done].
  - apply insert_review_inv in Hexec
      as (_ & (a & Ha & _) & Hp & Hd & _ & _ & Htrig).
    apply update_doctor_rating_Some in Htrig as (Hpr & Happ & Hrev & Hdoc).
    simpl in Hpr, Happ, Hrev, Hdoc.
    assert (Hkeys : ∀ k, is_Some (Sql.doctor_profiles db !! k) →
                         is_Some (Sql.doctor_profiles db' !! k)).
    { destruct Hdoc as [->|(d & v & _ & _ & _ & ->)]; [done|].
      intros k. apply is_Some_insert. }
    split; [|split]; rewrite ?Hpr, ?Happ, ?Hrev.
    + destruct Hdoc as [->|(d & v & Hd' & _ & _ & ->)]; [done|].
      intros i x Hx. apply lookup_insert_Some in Hx as [[_ <-]|[_ Hx]].
      * simpl. by eapply Hdp.
      * by eapply Hdp.
    + intros i x Hx. destruct (Hap i x Hx). split; [done|by apply Hkeys].
    + intros i r Hr. apply lookup_insert_Some in Hr as [[_ <-]|[_ Hr]].
      * rewrite Ha. split; [by eexists|]. split; [done|by apply Hkeys].
      * destruct (Hrv i r Hr) as (? & ? & ?).
        split; [done|]. split; [done|by apply Hkeys].
Qed.

(** X21: In every reachable state the foreign keys hold: every doctor profile,
    appointment and review refers to rows that exist. *)
Theorem reachable_referential_integrity db :
  Sql.reachable db → referential_integrity db.
Proof.
  apply reachable_ind.
  - split; [|split]; intros i x Hx; simpl in Hx; by rewrite lookup_empty in Hx.
  - apply exec_referential_integrity.
Qed.

Lemma reachable_surgeryDb : Sql.reachable surgeryDb.
Proof. apply (run_reachable surgery). vm_compute. reflexivity. Qed.

Lemma reachable_referential_integrity_witness : referential_integrity surgeryDb.
Proof. exact (reachable_referential_integrity surgeryDb reachable_surgeryDb). Defined.

Lemma exec_checks_hold s db db' :
  Sql.exec s db = Some db' → checks_hold db → checks_hold db'.
Proof.
  intros Hexec (Hpr & Hrv).
  destruct s as [uid id NEW|uid id NEW|uid NEW|uid id NEW|uid NEW|uid id NEW|uid NEW];
    simpl in Hexec.
  - apply insert_profile_Some in Hexec as (_ & _ & _ & Hrole & ->).
    split; [|done]. simpl. intros i p Hp.
    apply lookup_insert_Some in Hp as [[_ <-]|[_ Hp]]; [done|by eapply Hpr].
  - apply update_profile_Some in Hexec as (_ & _ & _ & Hrole & ->).
    split; [|done]. simpl. intros i p Hp.
    apply lookup_insert_Some in Hp as [[_ <-]|[_ Hp]]; [done|by eapply Hpr].
  - by apply insert_doctor_profile_Some in Hexec as (_ & _ & _ & row & _ & ->).
  - by apply update_doctor_profile_Some in Hexec
      as (OLD & row & _ & _ & _ & _ & _ & ->).
  - by apply insert_appointment_Some in Hexec as (_ & _ & _ & _ & ->).
  - by apply update_appointment_Some in Hexec as (OLD & _ & _ & _ & _ & _ & _ & ->).
  - apply insert_review_inv in Hexec as (_ & _ & _ & _ & _ & Hrate & Htrig).
    apply update_doctor_rating_Some in Htrig as (Hp' & Ha' & Hr' & _).
    simpl in Hp', Ha', Hr'. split; rewrite ?Hp', ?Ha', ?Hr'; [done|].
    intros i r Hr. apply lookup_insert_Some in Hr as [[_ <-]|[_ Hr]];
      [done|by eapply Hrv].
Qed.

(** X22: In every reachable state the CHECK constraints on the columns that
    are NOT NULL hold, also after updates of profiles: every role is patient,
    doctor or admin, and every review rating is between 1 and 5. *)
Theorem reachable_checks_hold db :
  Sql.reachable db →
  (∀ id p, Sql.profiles db !! id = Some p →
           Sql.p_role p = "patient" ∨ Sql.p_role p = "doctor"
           ∨ Sql.p_role p = "admin")
  ∧ (∀ id r, Sql.reviews db !! id = Some r → (1 ≤ Sql.r_rating r ≤ 5)%Z).
Proof.
  intros Hreach.
  assert (checks_hold db) as [Hpr Hrv].
  { revert db Hreach. apply reachable_ind.
    - split; intros i x Hx; simpl in Hx; by rewrite lookup_empty in Hx.
    - apply exec_checks_hold. }
  split; [|done]. intros id p Hp. specialize (Hpr id p Hp).
  rewrite !elem_of_cons, elem_of_nil in Hpr. tauto.
Qed.

Lemma reachable_checks_hold_witness :
  (∀ id p, Sql.profiles surgeryDb !! id = Some p →
           Sql.p_role p = "patient" ∨ Sql.p_role p = "doctor"
           ∨ Sql.p_role p = "admin")
  ∧ (∀ id r, Sql.reviews surgeryDb !! id = Some r → (1 ≤ Sql.r_rating r ≤ 5)%Z).
Proof. exact (reachable_checks_hold surgeryDb reachable_surgeryDb). Defined.

Lemma unique_column_insert {A B} (col : A → B) (m : gmap Sql.uuid A) k x :
  unique_column col m →
  (∀ i r, m !! i = Some r → i ≠ k → col r ≠ col x) →
  unique_column col (<[k := x]> m).
Proof.
  intros Huniq Hnew i j r1 r2 H1 H2 Heq.
  apply lookup_insert_Some in H1 as [[<- <-]|[Hne1 H1]];
    apply lookup_insert_Some in H2 as [[<- <-]|[Hne2 H2]]; try done.
  - destruct (Hnew _ _ H2); [congruence|done].
  - destruct (Hnew _ _ H1); [congruence|done].
  - by eapply Huniq.
Qed.

Lemma fresh_lookup_ne {A} (m : gmap Sql.uuid A) i r :
  m !! i = Some r → i ≠ fresh (dom m).
Proof.
  intros Hr ->. pose proof (is_fresh (dom m)) as Hf.
  apply not_elem_of_dom in Hf. congruence.
Qed.

Lemma exec_uniques_hold s db db' :
  Sql.exec s db = Some db' → uniques_hold db → uniques_hold db'.
Proof.
  intros Hexec (Hem & Hus & Hli).
  destruct s as [uid id NEW|uid id NEW|uid NEW|uid id NEW|uid NEW|uid id NEW|uid NEW];
    simpl in Hexec.
  - apply insert_profile_Some in Hexec as (_ & _ & Hemail & _ & ->).
    split; [|done]. simpl. apply unique_column_insert; [done|].
    intros i r Hr _. by eapply Hemail.
  - apply update_profile_Some in Hexec as (_ & _ & Hemail & _ & ->).
    split; [|done]. simpl. apply unique_column_insert; [done|].
    intros i r Hr Hne. by eapply Hemail.
  - apply insert_doctor_profile_Some in Hexec as (_ & _ & Hnew & row & Hrow & ->).
    apply doctor_profiles_typed_Some in Hrow as (Hrow & _).
    split; [done|]. simpl.
    split; (apply unique_column_insert; [done|]); intros i r Hr _;
      rewrite Hrow; simpl; by destruct (Hnew i r Hr).
  - apply update_doctor_profile_Some in Hexec
      as (OLD & row & _ & _ & _ & Hnew & Hrow & ->).
    apply doctor_profiles_typed_Some in Hrow as (Hrow & _).
    split; [done|]. simpl.
    split; (apply unique_column_insert; [done|]); intros i r Hr Hne;
      rewrite Hrow; simpl; by destruct (Hnew i r Hr Hne).
  - by apply insert_appointment_Some in Hexec as (_ & _ & _ & _ & ->).
  - by apply update_appointment_Some in Hexec as (OLD & _ & _ & _ & _ & _ & _ & ->).
  - apply insert_review_inv in Hexec as (_ & _ & _ & _ & _ & _ & Htrig).
    apply update_doctor_rating_Some in Htrig as (Hp' & _ & _ & Hdoc).
    simpl in Hp', Hdoc. unfold uniques_hold. rewrite Hp'. split; [done|].
    destruct Hdoc as [->|(d & v & Hd & _ & _ & ->)]; [done|].
    split; (apply unique_column_insert; [done|]); intros i r Hr Hne Heq;
      apply Hne; [by eapply Hus|by eapply Hli].
Qed.

(** The three families of constraints together, for use below. *)
Lemma reachable_constraints db :
  Sql.reachable db → referential_integrity db ∧ checks_hold db ∧ uniques_hold db.
Proof.
  revert db.
  apply (reachable_ind
           (λ db, referential_integrity db ∧ checks_hold db ∧ uniques_hold db)).
  - split; [|split].
    + split; [|split]; intros i x Hx; simpl in Hx; by rewrite lookup_empty in Hx.
    + split; intros i x Hx; simpl in Hx; by rewrite lookup_empty in Hx.
    + split; [|split]; intros i j x y Hx; simpl in Hx;
        by rewrite lookup_empty in Hx.
  - intros s db0 db' Hexec (Hri & Hck & Hun). split; [|split].
    + by eapply exec_referential_integrity.
    + by eapply exec_checks_hold.
    + by eapply exec_uniques_hold.
Qed.

(** X23: In every reachable state the UNIQUE constraints hold, also after
    updates of profiles and of doctor profiles: no two profiles share an
    email, and no two doctor profiles share a user or a license number. *)
Theorem reachable_uniques_hold db : Sql.reachable db → uniques_hold db.
Proof.
  apply reachable_ind.
  - split; [|split]; intros i j x y Hx; simpl in Hx; by rewrite lookup_empty in Hx.
  - apply exec_uniques_hold.
Qed.

Lemma reachable_uniques_hold_witness : uniques_hold surgeryDb.
Proof. exact (reachable_uniques_hold surgeryDb reachable_surgeryDb). Defined.

(** ** Reviews, continued *)

Lemma exec_reviews_kept s db db' :
  Sql.exec s db = Some db' → reviews_kept db db'.
Proof.
  intros Hexec id r Hr.
  destruct (exec_reviews _ _ _ Hexec) as [->|(uid & NEW & ->)]; [done|].
  simpl in Hexec. apply insert_review_Some in Hexec as (_ & _ & -> & _).
  rewrite lookup_insert_ne; [done|]. intros <-. by eapply fresh_lookup_ne.
Qed.

(** X24: A review, once stored, is never changed nor removed: whatever accepted
    statements follow, it is still there under the same [id] with the same
    content. *)
Theorem reviews_never_change db db' :
  rtc Sql.step db db' → reviews_kept db db'.
Proof.
  induction 1 as [db|db db1 db' [s Hexec] _ IH].
  - by intros id r Hr.
  - intros id r Hr. apply IH. by eapply exec_reviews_kept.
Qed.

Lemma reviews_never_change_witness :
  reviews_kept surgeryDb
    (default surgeryDb
       (Sql.exec (Sql.UpdateAppointment 1 0 (visit "cancelled")) surgeryDb))
  ∧ Sql.a_status <$>
      Sql.appointments
        (default surgeryDb
           (Sql.exec (Sql.UpdateAppointment 1 0 (visit "cancelled")) surgeryDb)) !! 0
    = Some "cancelled".
Proof.
  split; [|vm_compute; reflexivity].
  apply reviews_never_change. eapply rtc_once.
  exists (Sql.UpdateAppointment 1 0 (visit "cancelled")). vm_compute. reflexivity.
Defined.

Lemma List_filter_Permutation {A} (f : A → bool) (l1 l2 : list A) :
  l1 ≡ₚ l2 → List.filter f l1 ≡ₚ List.filter f l2.
Proof.
  induction 1 as [|x l1 l2 _ IH|x y l|l1 l2 l3 _ IH1 _ IH2]; simpl.
  - done.
  - destruct (f x); [by constructor|done].
  - destruct (f x), (f y); try done. apply perm_swap.
  - by etransitivity.
Qed.

Lemma elem_of_ratings_of db d z :
  z ∈ Sql.ratings_of db d ↔
  ∃ id r, Sql.reviews db !! id = Some r ∧ Sql.r_doctor_id r = d ∧ Sql.r_rating r = z.
Proof.
  unfold Sql.ratings_of. rewrite list_elem_of_fmap. split.
  - intros ([id r] & -> & Hin).
    rewrite list_elem_of_In, filter_In, <- list_elem_of_In in Hin.
    destruct Hin as [Hin Hd]. apply elem_of_map_to_list in Hin.
    apply Nat.eqb_eq in Hd. by exists id, r.
  - intros (id & r & Hr & Hd & <-). exists (id, r). split; [done|].
    rewrite list_elem_of_In, filter_In, <- list_elem_of_In.
    split; [by apply elem_of_map_to_list|]. simpl. by apply Nat.eqb_eq.
Qed.

(** The ratings of a doctor after a review went in: the new rating joins
    those of its doctor, up to order, and no other doctor's. *)
Lemma ratings_of_insert db NEW d :
  let db1 := Sql.mkDb (Sql.profiles db) (Sql.doctor_profiles db) (Sql.appointments db)
               (<[fresh (dom (Sql.reviews db)) := NEW]> (Sql.reviews db)) in
  Sql.ratings_of db1 d
  ≡ₚ (if (Sql.r_doctor_id NEW =? d)%nat then [Sql.r_rating NEW] else [])
     ++ Sql.ratings_of db d.
Proof.
  intros db1. unfold Sql.ratings_of, db1. simpl.
  rewrite (List_filter_Permutation _ _ _
             (map_to_list_insert (Sql.reviews db) (fresh (dom (Sql.reviews db))) NEW
                (proj1 (not_elem_of_dom _ _) (is_fresh _)))).
  simpl. by destruct (Sql.r_doctor_id NEW =? d)%nat.
Qed.

Lemma avg_rating_decimal_reviews db db' d :
  Sql.reviews db' = Sql.reviews db →
  Sql.avg_rating_decimal db' d = Sql.avg_rating_decimal db d.
Proof. intros Hr. unfold Sql.avg_rating_decimal, Sql.ratings_of. by rewrite Hr. Qed.

(** X25: An accepted review changes no doctor profile other than that of the
    reviewed doctor, and of that one at most the rating: the row either stays
    as it is or gets the value of the trigger's subquery, computed over the
    ratings of that doctor with the new one among them. *)
Theorem insert_review_rating_effect uid NEW db db' :
  Sql.insert_review uid NEW db = Some db' →
  (∀ d', d' ≠ Sql.r_doctor_id NEW →
         Sql.doctor_profiles db' !! d' = Sql.doctor_profiles db !! d')
  ∧ Sql.ratings_of db' (Sql.r_doctor_id NEW)
    ≡ₚ Sql.r_rating NEW :: Sql.ratings_of db (Sql.r_doctor_id NEW)
  ∧ ∃ row, Sql.doctor_profiles db !! Sql.r_doctor_id NEW = Some row
           ∧ (Sql.doctor_profiles db' !! Sql.r_doctor_id NEW = Some row
              ∨ ∃ v, Sql.avg_rating_decimal db' (Sql.r_doctor_id NEW) = Some v
                     ∧ Sql.doctor_profiles db' !! Sql.r_doctor_id NEW
                       = Some (Sql.set_rating v row)).
Proof.
  intros Hins.
  apply insert_review_inv in Hins as (_ & _ & _ & [row Hrow] & _ & _ & Htrig).
  apply update_doctor_rating_Some in Htrig as (_ & _ & Hrev & Hdoc).
  simpl in Hrev, Hdoc.
  assert (Sql.ratings_of db' (Sql.r_doctor_id NEW)
          ≡ₚ Sql.r_rating NEW :: Sql.ratings_of db (Sql.r_doctor_id NEW)) as Hperm.
  { pose proof (ratings_of_insert db NEW (Sql.r_doctor_id NEW)) as Hp.
    simpl in Hp. rewrite Nat.eqb_refl in Hp. simpl in Hp.
    unfold Sql.ratings_of in Hp |- *. by rewrite Hrev. }
  destruct Hdoc as [Hsame|(d & v & Hd & _ & Hv & Hnew)].
  - rewrite Hsame. split; [done|]. split; [done|]. exists row. by eauto.
  - rewrite Hnew. split; [intros d' Hne; by rewrite lookup_insert_ne|].
    split; [done|]. exists row. split; [done|]. right. exists v.
    rewrite (avg_rating_decimal_reviews
               (Sql.mkDb (Sql.profiles db) (Sql.doctor_profiles db)
                         (Sql.appointments db)
                         (<[fresh (dom (Sql.reviews db)) := NEW]> (Sql.reviews db)))
               db' _ Hrev), lookup_insert_eq.
    split; [done|]. congruence.
Qed.

Lemma insert_review_rating_effect_witness :
  let db := default Sql.emptyDb (Sql.run (take 6 surgery) Sql.emptyDb) in
  Sql.ratings_of surgeryDb 0 ≡ₚ 5%Z :: Sql.ratings_of db 0.
Proof.
  assert (Sql.insert_review 1 (Sql.mk_review 0 1 0 5 (Some "thanks"))
            (default Sql.emptyDb (Sql.run (take 6 surgery) Sql.emptyDb))
          = Some surgeryDb) as Hins by (vm_compute; reflexivity).
  exact (proj1 (proj2 (insert_review_rating_effect _ _ _ _ Hins))).
Defined.

(** X26: In a reachable state an INSERT on [reviews] is accepted exactly when the
    reviewer is the acting user and the patient of the named appointment,
    that appointment is completed and has no review yet, the named doctor
    profile exists and the rating is between 1 and 5; the trigger never makes
    it fail, and the named doctor need not be the doctor of the
    appointment. *)
Theorem insert_review_accepted_iff db uid NEW :
  Sql.reachable db →
  is_Some (Sql.insert_review uid NEW db)
  ↔ Sql.r_patient_id NEW = uid
    ∧ (∃ a, Sql.appointments db !! Sql.r_appointment_id NEW = Some a
            ∧ Sql.a_patient_id a = uid ∧ Sql.a_status a = "completed")
    ∧ is_Some (Sql.doctor_profiles db !! Sql.r_doctor_id NEW)
    ∧ (∀ id r, Sql.reviews db !! id = Some r →
               Sql.r_appointment_id r ≠ Sql.r_appointment_id NEW)
    ∧ (1 ≤ Sql.r_rating NEW ≤ 5)%Z.
Proof.
  intros Hreach. split.
  - intros [db' Hins].
    by apply insert_review_inv in Hins as (? & ? & _ & ? & ? & ? & _).
  - intros (Hp & (a & Ha & Hap & Hst) & [d Hd] & Huniq & Hlo & Hhi).
    pose proof (reachable_constraints _ Hreach) as ((_ & Hri & _) & (_ & Hck) & _).
    destruct (Hri _ _ Ha) as [Hpat _]. rewrite Hap, <- Hp in Hpat.
    unfold Sql.insert_review, Sql.review_insert_policy.
    rewrite Ha, Hd, Hp, Hap, Nat.eqb_refl. apply String.eqb_eq in Hst as ->.
    rewrite Hp in Hpat.
    rewrite !bool_decide_eq_true_2 by (done || by eexists). simpl.
    rewrite (proj2 (unique_in_Some _ _ _ _)) by (intros id r Hr _; by eapply Huniq).
    rewrite (proj2 (Z.leb_le _ _) Hlo), (proj2 (Z.leb_le _ _) Hhi). simpl.
    unfold Sql.update_doctor_rating. simpl. rewrite Hd.
    destruct (Sql.d_user_id d =? uid)%nat; [|done].
    destruct (avg_rating_decimal_rounded
                (Sql.mkDb (Sql.profiles db) (Sql.doctor_profiles db)
                          (Sql.appointments db)
                          (<[fresh (dom (Sql.reviews db)) := NEW]> (Sql.reviews db)))
                (Sql.r_doctor_id NEW)) as (v & m & -> & _).
    + intros Hnil.
      assert (Sql.r_rating NEW ∈ ([] : list Z)) as Hin; [|by apply elem_of_nil in Hin].
      rewrite <- Hnil. apply elem_of_ratings_of.
      exists (fresh (dom (Sql.reviews db))), NEW. simpl.
      by rewrite lookup_insert_eq.
    + intros z Hz. apply elem_of_ratings_of in Hz as (id & r & Hr & _ & <-).
      simpl in Hr. apply lookup_insert_Some in Hr as [[_ <-]|[_ Hr]].
      * lia.
      * by eapply Hck.
    + done.
Qed.

Lemma insert_review_accepted_iff_witness :
  let NEW := Sql.mk_review 0 1 0 4 None in
  is_Some (Sql.insert_review 1 NEW surgeryDb)
  ↔ Sql.r_patient_id NEW = 1
    ∧ (∃ a, Sql.appointments surgeryDb !! Sql.r_appointment_id NEW = Some a
            ∧ Sql.a_patient_id a = 1 ∧ Sql.a_status a = "completed")
    ∧ is_Some (Sql.doctor_profiles surgeryDb !! Sql.r_doctor_id NEW)
    ∧ (∀ id r, Sql.reviews surgeryDb !! id = Some r →
               Sql.r_appointment_id r ≠ Sql.r_appointment_id NEW)
    ∧ (1 ≤ Sql.r_rating NEW ≤ 5)%Z.
Proof.
  exact (insert_review_accepted_iff surgeryDb 1 (Sql.mk_review 0 1 0 4 None)
           reachable_surgeryDb).
Defined.

(** ** What the update policies leave open *)

(** X27: In a reachable state the owner of a doctor profile can rewrite the own
    row with any verification flag, availability, specialization and
    qualification, and with any rating and consultation count that the types
    of their columns hold: the policy and the constraints look at [user_id]
    and [license_number] only.  The row is stored as written, the rating
    rounded to two decimals. *)
Theorem update_doctor_profile_owner_free db uid id OLD NEW row :
  Sql.reachable db →
  Sql.doctor_profiles db !! id = Some OLD →
  Sql.d_user_id OLD = uid → Sql.d_user_id NEW = uid →
  Sql.d_license_number NEW = Sql.d_license_number OLD →
  Sql.doctor_profiles_typed NEW = Some row →
  Sql.update_doctor_profile uid id NEW db
  = Some (Sql.mkDb (Sql.profiles db) (<[id := row]> (Sql.doctor_profiles db))
                   (Sql.appointments db) (Sql.reviews db))
  ∧ Sql.d_is_verified row = Sql.d_is_verified NEW
  ∧ Sql.d_is_available row = Sql.d_is_available NEW
  ∧ Sql.d_specialization row = Sql.d_specialization NEW
  ∧ Sql.d_qualification row = Sql.d_qualification NEW
  ∧ Sql.d_total_consultations row = Sql.d_total_consultations NEW
  ∧ match Sql.d_rating NEW with
    | Some q => Sql.d_rating row = Some (Sql.round_scale2 q)
    | None => Sql.d_rating row = None
    end.
Proof.
  intros Hreach Hold Ho Hn Hl Hrow.
  pose proof (reachable_constraints _ Hreach) as (_ & _ & (_ & Hus & Hli)).
  split.
  - unfold Sql.update_doctor_profile. rewrite Hold, Ho, Hn, Nat.eqb_refl. simpl.
    rewrite (proj2 (unique_in_Some Sql.d_user_id _ _ _)).
    2:{ intros i r Hr Hne Heq. apply Hne. f_equal.
        apply (Hus i id r OLD Hr Hold). congruence. }
    rewrite (proj2 (unique_in_Some Sql.d_license_number _ _ _)).
    2:{ intros i r Hr Hne Heq. apply Hne. f_equal.
        apply (Hli i id r OLD Hr Hold). congruence. }
    by rewrite Hrow.
  - apply doctor_profiles_typed_Some in Hrow as (Heq & _ & Hrating).
    rewrite Heq at 1 2 3 4 5. simpl. repeat (split; [done|]).
    destruct (Sql.d_rating NEW) as [q|]; [|done].
    destruct Hrating as (r & Hcast & ->). f_equal.
    unfold Sql.cast_decimal_3_2 in Hcast.
    destruct (_ || _) in Hcast; [done|]. by injection Hcast as <-.
Qed.

Lemma update_doctor_profile_owner_free_witness :
  Sql.update_doctor_profile 2 0
    (Sql.mk_doctor_profile 2 "surgery" "L-10" "MD" true true (Some (4666 # 1000)%Q)
                           1000)
    (default Sql.emptyDb (Sql.run (take 3 surgery) Sql.emptyDb))
  ≫= (λ db, Sql.doctor_profiles db !! 0)
  = Some (Sql.mk_doctor_profile 2 "surgery" "L-10" "MD" true true
                                (Some (467 # 100)%Q) 1000).
Proof.
  assert (Sql.reachable (default Sql.emptyDb (Sql.run (take 3 surgery) Sql.emptyDb)))
    as Hreach.
  { apply (run_reachable (take 3 surgery)). vm_compute. reflexivity. }
  destruct (update_doctor_profile_owner_free _ 2 0
              (Sql.mk_doctor_profile 2 "cardiology" "L-10" "MD" true true
                                     (Some (0 # 100)%Q) 0)
              (Sql.mk_doctor_profile 2 "surgery" "L-10" "MD" true true
                                     (Some (4666 # 1000)%Q) 1000)
              (Sql.mk_doctor_profile 2 "surgery" "L-10" "MD" true true
                                     (Some (467 # 100)%Q) 1000)
              Hreach ltac:(vm_compute; reflexivity) eq_refl eq_refl eq_refl
              ltac:(vm_compute; reflexivity)) as [Hupd _].
  rewrite Hupd. simpl. by rewrite lookup_insert_eq.
Defined.

(** X28: In a reachable state the patient of an appointment, and the user of its
    doctor, can set its status to any of the five values whatever the
    current status is: the update policy refuses no transition. *)
Theorem update_appointment_any_status db uid id OLD status :
  Sql.reachable db →
  Sql.appointments db !! id = Some OLD →
  Sql.appointment_policy db uid OLD = true →
  status ∈ ["pending"; "confirmed"; "completed"; "cancelled"; "rescheduled"] →
  let NEW := Sql.mk_appointment (Sql.a_patient_id OLD) (Sql.a_doctor_id OLD)
               (Sql.a_appointment_date OLD) (Sql.a_appointment_time OLD) status
               (Sql.a_reason OLD) in
  Sql.update_appointment uid id NEW db
  = Some (Sql.mkDb (Sql.profiles db) (Sql.doctor_profiles db)
                   (<[id := NEW]> (Sql.appointments db)) (Sql.reviews db)).
Proof.
  intros Hreach Hold Hpol Hst NEW.
  pose proof (reachable_constraints _ Hreach) as ((_ & Hri & _) & _).
  destruct (Hri _ _ Hold) as [Hp Hd].
  unfold Sql.update_appointment. rewrite Hold, Hpol.
  assert (Sql.appointment_policy db uid NEW = true) as -> by exact Hpol.
  unfold Sql.status_check. simpl.
  rewrite !bool_decide_eq_true_2 by done. done.
Qed.

Lemma update_appointment_any_status_witness :
  Sql.a_status <$>
    (Sql.update_appointment 1 0 (visit "completed")
       (default Sql.emptyDb (Sql.run (take 4 surgery) Sql.emptyDb))
     ≫= λ db, Sql.appointments db !! 0)
  = Some "completed".
Proof.
  assert (Sql.reachable (default Sql.emptyDb (Sql.run (take 4 surgery) Sql.emptyDb)))
    as Hreach.
  { apply (run_reachable (take 4 surgery)). vm_compute. reflexivity. }
  assert ("completed"
          ∈ ["pending"; "confirmed"; "completed"; "cancelled"; "rescheduled"])
    as Hst by by_compute.
  pose proof (update_appointment_any_status _ 1 0 (visit "pending") "completed"
                Hreach ltac:(vm_compute; reflexivity) ltac:(vm_compute; reflexivity)
                Hst) as Hupd.
  etransitivity;
    [exact (f_equal (λ o, Sql.a_status <$> (o ≫= λ db, Sql.appointments db !! 0))
                    Hupd)|].
  simpl. by rewrite lookup_insert_eq.
Defined.

(** ** The stored rating after a review *)

Lemma ratings_of_reviews db db' d :
  Sql.reviews db' = Sql.reviews db → Sql.ratings_of db' d = Sql.ratings_of db d.
Proof. intros Hr. unfold Sql.ratings_of. by rewrite Hr. Qed.

(** X29: What an accepted review does to the stored rating of the reviewed
    doctor depends on who inserts it.  When the reviewer is not the user of
    that doctor profile, the UPDATE of the trigger function is kept from the
    row by the policy of [doctor_profiles], and every doctor profile stays as
    it was, the rating included; when the reviewer is that user, the stored
    rating becomes the mean of the ratings of the doctor, the new one among
    them, rounded to two decimal places. *)
Theorem insert_review_stored_rating db uid NEW db' d :
  Sql.reachable db →
  Sql.insert_review uid NEW db = Some db' →
  Sql.doctor_profiles db !! Sql.r_doctor_id NEW = Some d →
  (Sql.d_user_id d ≠ uid → Sql.doctor_profiles db' = Sql.doctor_profiles db)
  ∧ (Sql.d_user_id d = uid →
     ∃ v m, Sql.doctor_profiles db' !! Sql.r_doctor_id NEW
            = Some (Sql.set_rating (Some v) d)
            ∧ is_mean_of m (inject_Z <$> Sql.ratings_of db' (Sql.r_doctor_id NEW))
            ∧ rounded_to_2_decimals v m).
Proof.
  intros Hreach Hins Hd.
  pose proof (reachable_constraints _ Hreach) as (_ & (_ & Hck) & _).
  apply insert_review_inv in Hins as (_ & _ & _ & _ & _ & Hrate & Htrig).
  set (db1 := Sql.mkDb (Sql.profiles db) (Sql.doctor_profiles db)
                (Sql.appointments db)
                (<[fresh (dom (Sql.reviews db)) := NEW]> (Sql.reviews db))) in *.
  unfold Sql.update_doctor_rating in Htrig.
  change (Sql.doctor_profiles db1) with (Sql.doctor_profiles db) in Htrig.
  rewrite Hd in Htrig.
  destruct (Nat.eqb_spec (Sql.d_user_id d) uid) as [Hu|Hu].
  - split; [done|]. intros _.
    destruct (avg_rating_decimal_rounded db1 (Sql.r_doctor_id NEW))
      as (v & m & Hv & Hmean & Hround).
    + intros Hnil.
      assert (Sql.r_rating NEW ∈ ([] : list Z)) as Hin; [|by apply elem_of_nil in Hin].
      rewrite <- Hnil. apply elem_of_ratings_of.
      exists (fresh (dom (Sql.reviews db))), NEW. simpl.
      by rewrite lookup_insert_eq.
    + intros z Hz. apply elem_of_ratings_of in Hz as (id & r & Hr & _ & <-).
      simpl in Hr. apply lookup_insert_Some in Hr as [[_ <-]|[_ Hr]].
      * lia.
      * by eapply Hck.
    + rewrite Hv in Htrig. simpl in Htrig. injection Htrig as <-.
      exists v, m. simpl. rewrite lookup_insert_eq. done.
  - split; [|done]. intros _. by injection Htrig as <-.
Qed.

Lemma insert_review_stored_rating_witness :
  Sql.doctor_profiles surgeryDb
  = Sql.doctor_profiles (default Sql.emptyDb (Sql.run (take 6 surgery) Sql.emptyDb)).
Proof.
  assert (Sql.reachable (default Sql.emptyDb (Sql.run (take 6 surgery) Sql.emptyDb)))
    as Hreach.
  { apply (run_reachable (take 6 surgery)). vm_compute. reflexivity. }
  apply (insert_review_stored_rating _ 1 (Sql.mk_review 0 1 0 5 (Some "thanks"))
           surgeryDb
           (Sql.mk_doctor_profile 2 "cardiology" "L-10" "MD" true true
                                  (Some (0 # 100)%Q) 0) Hreach);
    [vm_compute; reflexivity|vm_compute; reflexivity|discriminate].
Defined.

(** ** What the update policy of profiles leaves open *)

(** X30: In a reachable state a user can set the role of the own profile to any
    of the three roles, admin included, whatever it was: the update policy
    looks at [id] only.  No user can update the profile of another. *)
Theorem update_profile_own_role db uid OLD role :
  Sql.reachable db →
  Sql.profiles db !! uid = Some OLD →
  role ∈ ["patient"; "doctor"; "admin"] →
  let NEW := Sql.mk_profile (Sql.p_email OLD) (Sql.p_full_name OLD) role in
  Sql.update_profile uid uid NEW db
  = Some (Sql.mkDb (<[uid := NEW]> (Sql.profiles db)) (Sql.doctor_profiles db)
                   (Sql.appointments db) (Sql.reviews db))
  ∧ ∀ other NEW', other ≠ uid → Sql.update_profile other uid NEW' db = None.
Proof.
  intros Hreach Hold Hrole NEW.
  pose proof (reachable_constraints _ Hreach) as (_ & _ & (Hem & _)).
  split.
  - unfold Sql.update_profile. rewrite Hold, Nat.eqb_refl. simpl.
    rewrite (proj2 (unique_in_Some Sql.p_email _ _ _)).
    2:{ intros i r Hr Hne Heq. apply Hne. f_equal.
        by apply (Hem i uid r OLD Hr Hold). }
    unfold Sql.role_check. simpl. by rewrite bool_decide_eq_true_2.
  - intros other NEW' Hne. unfold Sql.update_profile. rewrite Hold.
    apply Nat.eqb_neq in Hne. rewrite Nat.eqb_sym in Hne. by rewrite Hne.
Qed.

Lemma update_profile_own_role_witness :
  Sql.p_role <$>
    (Sql.update_profile 1 1 (Sql.mk_profile "alice@example.com" "Alice" "admin")
       surgeryDb
     ≫= λ db, Sql.profiles db !! 1)
  = Some "admin".
Proof.
  assert ("admin" ∈ ["patient"; "doctor"; "admin"]) as Hrole by by_compute.
  destruct (update_profile_own_role surgeryDb 1
              (Sql.mk_profile "alice@example.com" "Alice" "patient") "admin"
              reachable_surgeryDb ltac:(vm_compute; reflexivity) Hrole)
    as [Hupd _].
  etransitivity;
    [exact (f_equal (λ o, Sql.p_role <$> (o ≫= λ db, Sql.profiles db !! 1)) Hupd)|].
  simpl. by rewrite lookup_insert_eq.
Defined.
